(** * Qt-Color-Widgets: the swatch grid and the colour-model conversions

    A shallow embedding of [src/swatch.cpp] and [src/color_utils.cpp].

    Numbers.  A C++ [int] is a [Z]; [/] and [%] on [int] are [Z.quot] and
    [Z.rem] (truncation towards zero) and are undefined for a zero divisor.
    Signed overflow is outside the model.  A [float], [double] or [qreal] is
    an exact rational [Q]: rounding of the floating-point formats is not
    modelled, and a computation whose floating value would be infinite or
    not-a-number has no value here.

    Undefined results.  A computation returns [option]: [None] stands for
    C++ undefined behaviour (integer division by zero, conversion of a
    non-finite floating value to [int]) or for a non-finite floating value. *)

From Stdlib Require Import ZArith QArith Qround Qabs Qminmax List Bool Lia Lqa.
Import ListNotations.

Open Scope Z_scope.

(** ** Numeric helpers *)

(** Floating-point division; [None] when the quotient is infinite or NaN. *)
Definition fdiv (a b : Q) : option Q :=
  if Qeq_bool b 0 then None else Some (a / b)%Q.

(** Conversion of a floating value to [int]: truncation towards zero. *)
Definition to_int (q : Q) : Z :=
  if Qle_bool 0 q then Qfloor q else Qceiling q.

(** [qRound] of Qt 5: [int(d + 0.5)] for [d >= 0] and the same rounding,
    shifted, below zero; both are the floor of [d + 1/2]. *)
Definition qRound (d : Q) : Z := Qfloor (d + (1 # 2))%Q.

(** [qBound(min, val, max)] is [qMax(min, qMin(max, val))]. *)
Definition qBoundZ (lo v hi : Z) : Z := Z.max lo (Z.min hi v).
Definition qBoundQ (lo v hi : Q) : Q := Qmax lo (Qmin hi v).

(** [fmod(a, 2)]: the remainder has the sign of [a]. *)
Definition fmod2 (a : Q) : Q := (a - 2 * inject_Z (to_int (a / 2)))%Q.

(** ** Qt value types *)

Record QSize := mkQSize { s_width : Z; s_height : Z }.
Record QSizeF := mkQSizeF { sf_width : Q; sf_height : Q }.
Record QPoint := mkQPoint { p_x : Z; p_y : Z }.
Record QPointF := mkQPointF { pf_x : Q; pf_y : Q }.
Record QRectF := mkQRectF { r_x : Q; r_y : Q; r_w : Q; r_h : Q }.

(** Default-constructed values. *)
Definition QSize_null : QSize := mkQSize (-1) (-1).
Definition QSizeF_null : QSizeF := mkQSizeF (-1) (-1).
Definition QRectF_null : QRectF := mkQRectF 0 0 0 0.

Definition QSize_isValid (s : QSize) : bool :=
  (0 <=? s_width s) && (0 <=? s_height s).
Definition QSize_isEmpty (s : QSize) : bool :=
  (s_width s <? 1) || (s_height s <? 1).

Definition Qlt_bool (a b : Q) : bool := negb (Qle_bool b a).

Definition QRectF_isValid (r : QRectF) : bool :=
  Qlt_bool 0 (r_w r) && Qlt_bool 0 (r_h r).
Definition QRectF_left (r : QRectF) : Q := r_x r.
Definition QRectF_top (r : QRectF) : Q := r_y r.
Definition QRectF_center (r : QRectF) : QPointF :=
  mkQPointF (r_x r + r_w r / 2)%Q (r_y r + r_h r / 2)%Q.
Definition QPointF_toPoint (p : QPointF) : QPoint :=
  mkQPoint (qRound (pf_x p)) (qRound (pf_y p)).

(** A [QColor] in the RGB spec: validity and four 16-bit channels. *)
Record QColor := mkQColor
  { c_valid : bool; c_red : Z; c_green : Z; c_blue : Z; c_alpha : Z }.

Definition USHRT_MAX : Z := 65535.
Definition QColor_invalid : QColor := mkQColor false 0 0 0 USHRT_MAX.

Definition QColor_eqb (a b : QColor) : bool :=
  Bool.eqb (c_valid a) (c_valid b) && (c_red a =? c_red b)
  && (c_green a =? c_green b) && (c_blue a =? c_blue b)
  && (c_alpha a =? c_alpha b).

(** [QColor(r, g, b, a)] with 8-bit arguments: each is stored times 0x101. *)
Definition QColor_rgba8 (r g b a : Z) : QColor :=
  mkQColor true (r * 257) (g * 257) (b * 257) (a * 257).

(** ** The palette collaborator *)

Module ColorPalette.

Record t := mk { colors : list QColor; columns : Z }.

Definition count (p : t) : Z := Z.of_nat (length (colors p)).

(** Modelled from the spec: [ColorPalette::colorAt] is not among the
    sources; the spec gives the palette as an ordered sequence of colours
    read by index.  Outside the sequence the default colour is returned. *)
Definition colorAt (p : t) (i : Z) : QColor :=
  if i <? 0 then QColor_invalid
  else nth (Z.to_nat i) (colors p) QColor_invalid.

Fixpoint remove_nth {A} (n : nat) (l : list A) : list A :=
  match l, n with
  | [], _ => []
  | _ :: tl, O => tl
  | hd :: tl, S k => hd :: remove_nth k tl
  end.

(** Modelled from the spec: [ColorPalette::eraseColor] is not among the
    sources; the spec has it remove the entry at the index, after which
    the colour-removed notification for that index is delivered. *)
Definition eraseColor (p : t) (i : Z) : t :=
  if i <? 0 then p
  else mk (remove_nth (Z.to_nat i) (colors p)) (columns p).

End ColorPalette.

(** ** The widget state *)

(** What the widget does to its collaborators, in order of occurrence. *)
Inductive call :=
| PaletteColorAt (i : Z)
| PaletteNameAt (i : Z)
| PaletteEraseColor (i : Z)
| CallSetSelected (i : Z)
| EmitSelectedChanged (i : Z)
| EmitColorSelected (c : QColor)
| BaseKeyPressEvent.

(** [Swatch::Private], with the width and height of the owning widget and
    the calls made so far (most recent first), each with the number of
    entries the palette had when the call was made. *)
Record Swatch := mkSwatch
  { palette : ColorPalette.t;
    selected : Z;
    color_size : QSize;
    margin : Z;
    emptyColor : QColor;
    forced_rows : Z;
    forced_columns : Z;
    readonly : bool;
    drop_index : Z;
    drop_color : QColor;
    drop_overwrite : bool;
    width : Z;
    height : Z;
    calls : list (call * Z) }.

Definition count (w : Swatch) : Z := ColorPalette.count (palette w).

Definition with_palette (p : ColorPalette.t) (w : Swatch) : Swatch :=
  mkSwatch p (selected w) (color_size w) (margin w) (emptyColor w)
    (forced_rows w) (forced_columns w) (readonly w) (drop_index w)
    (drop_color w) (drop_overwrite w) (width w) (height w) (calls w).

Definition with_selected (s : Z) (w : Swatch) : Swatch :=
  mkSwatch (palette w) s (color_size w) (margin w) (emptyColor w)
    (forced_rows w) (forced_columns w) (readonly w) (drop_index w)
    (drop_color w) (drop_overwrite w) (width w) (height w) (calls w).

Definition with_forced (r c : Z) (w : Swatch) : Swatch :=
  mkSwatch (palette w) (selected w) (color_size w) (margin w) (emptyColor w)
    r c (readonly w) (drop_index w)
    (drop_color w) (drop_overwrite w) (width w) (height w) (calls w).

Definition with_drop (i : Z) (c : QColor) (o : bool) (w : Swatch) : Swatch :=
  mkSwatch (palette w) (selected w) (color_size w) (margin w) (emptyColor w)
    (forced_rows w) (forced_columns w) (readonly w) i c o
    (width w) (height w) (calls w).

Definition with_margin (m : Z) (w : Swatch) : Swatch :=
  mkSwatch (palette w) (selected w) (color_size w) m (emptyColor w)
    (forced_rows w) (forced_columns w) (readonly w) (drop_index w)
    (drop_color w) (drop_overwrite w) (width w) (height w) (calls w).

Definition with_call (c : call) (w : Swatch) : Swatch :=
  mkSwatch (palette w) (selected w) (color_size w) (margin w) (emptyColor w)
    (forced_rows w) (forced_columns w) (readonly w) (drop_index w)
    (drop_color w) (drop_overwrite w) (width w) (height w)
    ((c, count w) :: calls w).

(** The state of a freshly constructed widget of the given size. *)
Definition Swatch_init (p : ColorPalette.t) (wd ht : Z) : Swatch :=
  mkSwatch p (-1) (mkQSize 16 16) 0 (QColor_rgba8 0 0 0 0) 0 0 false
    (-1) QColor_invalid false wd ht [].

(** ** A state monad with undefined results *)

Definition M (A : Type) : Type := Swatch -> option (A * Swatch).

Definition ret {A} (a : A) : M A := fun w => Some (a, w).
Definition bind {A B} (m : M A) (f : A -> M B) : M B :=
  fun w => match m w with
           | Some (a, w') => f a w'
           | None => None
           end.
Definition get : M Swatch := fun w => Some (w, w).
Definition modify (f : Swatch -> Swatch) : M unit := fun w => Some (tt, f w).
Definition lift {A} (o : option A) : M A :=
  fun w => match o with Some a => Some (a, w) | None => None end.
Definition record (c : call) : M unit := modify (with_call c).

Notation "x <- m ;; k" := (bind m (fun x => k))
  (at level 61, m at next level, right associativity).
Notation "m ;;; k" := (bind m (fun _ => k))
  (at level 61, right associativity).

(** The state a computation ends in. *)
Definition exec {A} (m : M A) (w : Swatch) : option Swatch :=
  option_map snd (m w).

(** ** Grid geometry *)

(** [Swatch::Private::rowcols]. *)
Definition rowcols (w : Swatch) : option QSize :=
  let count := count w in
  if count =? 0 then Some QSize_null
  else if negb (forced_rows w =? 0) then
    match fdiv (inject_Z count) (inject_Z (forced_rows w)) with
    | Some q => Some (mkQSize (Qceiling q) (forced_rows w))
    | None => None
    end
  else
    let columns := ColorPalette.columns (palette w) in
    match
      (if negb (forced_columns w =? 0) then Some (forced_columns w)
       else if columns =? 0 then
         if s_width (color_size w) =? 0 then None
         else Some (Z.min count (Z.quot (width w) (s_width (color_size w))))
       else Some columns)
    with
    | None => None
    | Some columns =>
      match fdiv (inject_Z count) (inject_Z columns) with
      | Some q => Some (mkQSize columns (Qceiling q))
      | None => None
      end
    end.

(** [Swatch::Private::actualColorSize(const QSize&)].  The source divides
    in single precision; here the cell size is the exact quotient. *)
Definition actualColorSize (w : Swatch) (rc : QSize) : option QSizeF :=
  match fdiv (inject_Z (width w)) (inject_Z (s_width rc)),
        fdiv (inject_Z (height w)) (inject_Z (s_height rc)) with
  | Some cw, Some ch => Some (mkQSizeF cw ch)
  | _, _ => None
  end.

(** [Swatch::Private::indexRect(int, const QSize&, const QSizeF&)]. *)
Definition indexRect3 (w : Swatch) (index : Z) (rc : QSize) (cs : QSizeF)
  : option QRectF :=
  if index =? -1 then Some QRectF_null
  else if s_width rc =? 0 then None
  else Some (mkQRectF
    (inject_Z (Z.rem index (s_width rc)) * sf_width cs + inject_Z (margin w))
    (inject_Z (Z.quot index (s_width rc)) * sf_height cs + inject_Z (margin w))
    (sf_width cs - inject_Z (margin w * 2))
    (sf_height cs - inject_Z (margin w * 2)))%Q.

(** [Swatch::Private::indexRect(int)]. *)
Definition indexRect (w : Swatch) (index : Z) : option QRectF :=
  match rowcols w with
  | None => None
  | Some rc =>
    if (index =? -1) || negb (QSize_isValid rc) then Some QRectF_null
    else match actualColorSize w rc with
         | None => None
         | Some cs => indexRect3 w index rc cs
         end
  end.

(** [Swatch::indexAt]; [-1] stands for no index. *)
Definition indexAt (w : Swatch) (pt : QPoint) : option Z :=
  match rowcols w with
  | None => None
  | Some rc =>
    if QSize_isEmpty rc then Some (-1)
    else match actualColorSize w rc with
         | None => None
         | Some cs =>
           match fdiv (inject_Z (p_x pt)) (sf_width cs),
                 fdiv (inject_Z (p_y pt)) (sf_height cs) with
           | Some fx, Some fy =>
             let px := qBoundZ 0 (to_int fx) (s_width rc - 1) in
             let py := qBoundZ 0 (to_int fy) (s_height rc - 1) in
             let index := py * s_width rc + px in
             if count w <=? index then Some (-1) else Some index
           | _, _ => None
           end
         end
  end.

(** ** The controller *)

(** Calls into the palette, recorded before they are served. *)
Definition palette_colorAt (i : Z) : M QColor :=
  record (PaletteColorAt i) ;;;
  w <- get ;;
  ret (ColorPalette.colorAt (palette w) i).

Definition palette_nameAt (i : Z) : M unit := record (PaletteNameAt i).

(** [Swatch::setSelected]. *)
Definition setSelected (sel : Z) : M unit :=
  record (CallSetSelected sel) ;;;
  w <- get ;;
  let sel := if (sel <? 0) || (count w <=? sel) then -1 else sel in
  if negb (sel =? selected w) then
    modify (with_selected sel) ;;;
    record (EmitSelectedChanged sel) ;;;
    if negb (sel =? -1) then
      c <- palette_colorAt sel ;;
      record (EmitColorSelected c)
    else ret tt
  else ret tt.

(** [Swatch::clearSelection]. *)
Definition clearSelection : M unit := setSelected (-1).

(** The listener connected to [ColorPalette::colorRemoved]. *)
Definition on_colorRemoved (index : Z) : M unit :=
  w <- get ;;
  if index =? selected w then clearSelection else ret tt.

(** The listener connected to [ColorPalette::colorChanged]. *)
Definition on_colorChanged (index : Z) : M unit :=
  w <- get ;;
  if index =? selected w then
    c <- palette_colorAt index ;;
    record (EmitColorSelected c)
  else ret tt.

(** [Swatch::paletteModified], the listener connected to
    [ColorPalette::colorsChanged]; the size-policy part changes nothing that
    is modelled. *)
Definition paletteModified : M unit :=
  w <- get ;;
  if count w <=? selected w then clearSelection else ret tt.

(** [palette.eraseColor(i)] called by the widget: the entry goes and the
    colour-removed listener runs. *)
Definition palette_eraseColor (i : Z) : M unit :=
  record (PaletteEraseColor i) ;;;
  modify (fun w => with_palette (ColorPalette.eraseColor (palette w) i) w) ;;;
  on_colorRemoved i.


(** [Swatch::colorAt(const QPoint&)]. *)
Definition colorAt (pt : QPoint) : M QColor :=
  w <- get ;;
  i <- lift (indexAt w pt) ;;
  palette_colorAt i.

(** [Swatch::removeSelected]. *)
Definition removeSelected : M unit :=
  w <- get ;;
  if negb (selected w =? -1) && negb (readonly w) then
    let sel := selected w in
    palette_eraseColor sel ;;;
    w' <- get ;;
    setSelected (Z.min sel (count w' - 1))
  else ret tt.

Inductive Key :=
| Key_Left | Key_Right | Key_Up | Key_Down | Key_Home | Key_End
| Key_Delete | Key_Backspace | Key_PageUp | Key_PageDown | Key_Other.

(** The remainder of [int] division, undefined for a zero divisor. *)
Definition rem (a b : Z) : M Z :=
  if b =? 0 then lift None else ret (Z.rem a b).

(** [Swatch::keyPressEvent]; [ctrl] tells whether the control modifier is
    held. *)
Definition keyPressEvent (key : Key) (ctrl : bool) : M unit :=
  w <- get ;;
  (if count w =? 0 then record BaseKeyPressEvent else ret tt) ;;;
  let sel := selected w in
  let count := count w in
  rc <- lift (rowcols w) ;;
  let columns := s_width rc in
  let rows := s_height rc in
  match key with
  | Key_Other => record BaseKeyPressEvent
  | Key_Left =>
    setSelected (if sel =? -1 then count - 1
                 else if 0 <? sel then sel - 1 else sel)
  | Key_Right =>
    setSelected (if sel =? -1 then 0
                 else if sel <? count - 1 then sel + 1 else sel)
  | Key_Up =>
    setSelected (if sel =? -1 then count - 1
                 else if columns <=? sel then sel - columns else sel)
  | Key_Down =>
    setSelected (if sel =? -1 then 0
                 else if sel <? count - columns then sel + columns else sel)
  | Key_Home =>
    if ctrl then setSelected 0
    else r <- rem sel columns ;; setSelected (sel - r)
  | Key_End =>
    if ctrl then setSelected (count - 1)
    else r <- rem sel columns ;; setSelected (sel + (columns - r - 1))
  | Key_Delete => removeSelected
  | Key_Backspace =>
    if negb (sel =? -1) && negb (readonly w) then
      palette_eraseColor sel ;;;
      w' <- get ;;
      setSelected (if ColorPalette.count (palette w') =? 0 then -1
                   else Z.max (sel - 1) 0)
    else setSelected sel
  | Key_PageUp =>
    if sel =? -1 then setSelected 0
    else r <- rem sel columns ;; setSelected r
  | Key_PageDown =>
    if sel =? -1 then setSelected (count - 1)
    else
      r <- rem sel columns ;;
      let s := columns * (rows - 1) + r in
      setSelected (if count <=? s then s - columns else s)
  end.

(** The part of a mouse press that the widget looks at. *)
Inductive MouseButton := LeftButton | RightButton | OtherButton.

(** [Swatch::mousePressEvent]; the right-click signal is not recorded. *)
Definition mousePressEvent (b : MouseButton) (pt : QPoint) : M unit :=
  w <- get ;;
  match b with
  | LeftButton => i <- lift (indexAt w pt) ;; setSelected i
  | RightButton => i <- lift (indexAt w pt) ;; ret tt
  | OtherButton => ret tt
  end.

(** The tool-tip branch of [Swatch::event]. *)
Definition toolTipEvent (pt : QPoint) : M bool :=
  w <- get ;;
  index <- lift (indexAt w pt) ;;
  if negb (index =? -1) then
    c <- palette_colorAt index ;;
    palette_nameAt index ;;;
    r <- lift (indexRect w index) ;;
    ret true
  else ret true.

(** [Swatch::setPalette]. *)
Definition setPalette (p : ColorPalette.t) : M unit :=
  clearSelection ;;;
  modify (with_palette p).

(** ** Drop resolution *)

(** What [dropEvent] reads from a [QDropEvent]: the position, the colour
    carried by the mime data (as a colour or parsed from its text), whether
    the proposed action is a move, and whether the source is this widget. *)
Record QDropEvent := mkQDropEvent
  { ev_posF : QPointF;
    ev_hasColor : bool;
    ev_colorData : QColor;
    ev_hasText : bool;
    ev_textColor : QColor;
    ev_isMoveAction : bool;
    ev_sourceIsOwner : bool }.

(** [QDropEvent::pos] rounds the stored position. *)
Definition ev_pos (e : QDropEvent) : QPoint := QPointF_toPoint (ev_posF e).

(** The second operand of the overwrite test, evaluated left to right. *)
Definition may_overwrite (e : QDropEvent) (index : Z) : M bool :=
  if negb (ev_isMoveAction e) then ret true
  else if negb (ev_sourceIsOwner e) then ret true
  else
    c <- palette_colorAt index ;;
    w <- get ;;
    ret (QColor_eqb c (emptyColor w)).

(** [Swatch::Private::dropEvent]. *)
Definition dropEvent (e : QDropEvent) : M unit :=
  w <- get ;;
  i <- lift (indexAt w (ev_pos e)) ;;
  let index := if i =? -1 then count w else i in
  let color := if ev_hasColor e then ev_colorData e
               else if ev_hasText e then ev_textColor e
               else drop_color w in
  drop_rect <- lift (indexRect w index) ;;
  if (index <? count w) && QRectF_isValid drop_rect then
    if (ColorPalette.columns (palette w) =? 1) || (forced_columns w =? 1) then
      if Qle_bool (QRectF_top drop_rect + r_h drop_rect * 3 / 4)
                  (pf_y (ev_posF e)) then
        modify (with_drop (index + 1) color false)
      else if Qlt_bool (QRectF_top drop_rect + r_h drop_rect / 4)
                       (pf_x (ev_posF e)) then
        ok <- may_overwrite e index ;;
        modify (with_drop index color ok)
      else modify (with_drop index color false)
    else
      if Qle_bool (QRectF_left drop_rect + r_w drop_rect * 3 / 4)
                  (pf_x (ev_posF e)) then
        modify (with_drop (index + 1) color false)
      else if Qlt_bool (QRectF_left drop_rect + r_w drop_rect / 4)
                       (pf_x (ev_posF e)) then
        ok <- may_overwrite e index ;;
        modify (with_drop index color ok)
      else modify (with_drop index color false)
  else modify (with_drop index color false).

(** The three outcomes of drop resolution, read off the drop state: the
    index the candidate started from is needed to tell an insertion after
    the candidate from one before its successor. *)
Inductive Disposition := InsertBefore | InsertAfter | Overwrite.

Definition disposition (candidate : Z) (w : Swatch) : Disposition :=
  if drop_overwrite w then Overwrite
  else if drop_index w =? candidate + 1 then InsertAfter
  else InsertBefore.

(** [Swatch::Private::clearDrop]. *)
Definition clearDrop : M unit := modify (with_drop (-1) QColor_invalid false).

(** ** Colour-model conversions *)

Definition in_unit (v : Q) : bool := Qle_bool 0 v && Qle_bool v 1.

(** [QColor::fromRgbF]: a channel outside [0, 1] gives the invalid colour,
    otherwise each channel is stored as [qRound(v * USHRT_MAX)]. *)
Definition QColor_fromRgbF (r g b a : Q) : QColor :=
  if in_unit r && in_unit g && in_unit b && in_unit a then
    mkQColor true
      (qRound (r * inject_Z USHRT_MAX)) (qRound (g * inject_Z USHRT_MAX))
      (qRound (b * inject_Z USHRT_MAX)) (qRound (a * inject_Z USHRT_MAX))
  else QColor_invalid.

Definition redF (c : QColor) : Q := (inject_Z (c_red c) / inject_Z USHRT_MAX)%Q.
Definition greenF (c : QColor) : Q :=
  (inject_Z (c_green c) / inject_Z USHRT_MAX)%Q.
Definition blueF (c : QColor) : Q :=
  (inject_Z (c_blue c) / inject_Z USHRT_MAX)%Q.

(** The colour before the offset: one of six arrangements of chroma, [x]
    and zero by the sextant of [h1], and the default colour when no test
    succeeds. *)
Definition sextant_color (h1 chroma x : Q) : QColor :=
  if Qle_bool 0 h1 && Qlt_bool h1 1 then QColor_fromRgbF chroma x 0 1
  else if Qlt_bool h1 2 then QColor_fromRgbF x chroma 0 1
  else if Qlt_bool h1 3 then QColor_fromRgbF 0 chroma x 1
  else if Qlt_bool h1 4 then QColor_fromRgbF 0 x chroma 1
  else if Qlt_bool h1 5 then QColor_fromRgbF x 0 chroma 1
  else if Qlt_bool h1 6 then QColor_fromRgbF chroma 0 x 1
  else QColor_invalid.

Section ColorUtils.

(** [color_lumaF] is declared in [color_utils.hpp], which is not among the
    sources: the conversions are taken over any such function. *)
Variable color_lumaF : QColor -> Q.

(** [color_from_lch]. *)
Definition color_from_lch (hue chroma luma alpha : Q) : QColor :=
  let h1 := (hue * 6)%Q in
  let x := (chroma * (1 - Qabs (fmod2 h1 - 1)))%Q in
  let col := sextant_color h1 chroma x in
  let m := (luma - color_lumaF col)%Q in
  QColor_fromRgbF
    (qBoundQ 0 (redF col + m) 1)
    (qBoundQ 0 (greenF col + m) 1)
    (qBoundQ 0 (blueF col + m) 1)
    alpha.

(** [color_from_hsl]. *)
Definition color_from_hsl (hue sat lig alpha : Q) : QColor :=
  let chroma := ((1 - Qabs (2 * lig - 1)) * sat)%Q in
  let h1 := (hue * 6)%Q in
  let x := (chroma * (1 - Qabs (fmod2 h1 - 1)))%Q in
  let col := sextant_color h1 chroma x in
  let m := (lig - chroma / 2)%Q in
  QColor_fromRgbF
    (qBoundQ 0 (redF col + m) 1)
    (qBoundQ 0 (greenF col + m) 1)
    (qBoundQ 0 (blueF col + m) 1)
    alpha.

End ColorUtils.

(** The luma weights of the usual definition, for concrete runs. *)
Definition luma_601 (c : QColor) : Q :=
  ((3 # 10) * redF c + (59 # 100) * greenF c + (11 # 100) * blueF c)%Q.

(** ** States for concrete runs *)

(** A palette of [n] opaque red entries with the given column hint. *)
Definition red_palette (n : nat) (hint : Z) : ColorPalette.t :=
  ColorPalette.mk (repeat (QColor_rgba8 255 0 0 255) n) hint.

(** Ten entries in ten forced columns on a widget five pixels wide and ten
    high: every cell is half a pixel wide. *)
Definition narrow_swatch : Swatch :=
  with_forced 0 10 (Swatch_init (red_palette 10 0) 5 10).

(** Ten entries in three forced columns on a widget of 48 by 64 pixels. *)
Definition grid_3x4 : Swatch :=
  with_forced 0 3 (Swatch_init (red_palette 10 0) 48 64).

(** Four entries in one forced column on a widget of 16 by 64 pixels. *)
Definition column_swatch : Swatch :=
  with_forced 0 1 (Swatch_init (red_palette 4 0) 16 64).

(** A palette of [n] entries that hold the default empty colour. *)
Definition empty_palette (n : nat) (hint : Z) : ColorPalette.t :=
  ColorPalette.mk (repeat (QColor_rgba8 0 0 0 0) n) hint.

(** Eight empty entries whose palette hints at one column, laid out in four
    forced columns on a widget of 64 by 32 pixels. *)
Definition hinted_swatch : Swatch :=
  with_forced 0 4 (Swatch_init (empty_palette 8 1) 64 32).

(** Eight empty entries in four forced columns, no hint. *)
Definition grid_4x2 : Swatch :=
  with_forced 0 4 (Swatch_init (empty_palette 8 0) 64 32).

(** A drag of opaque blue at the given position. *)
Definition drag_at (x y : Q) (move own : bool) : QDropEvent :=
  mkQDropEvent (mkQPointF x y) true (QColor_rgba8 0 0 255 255)
    false QColor_invalid move own.

(** ** Operations and invariants of the controller *)

(** The entry points of the widget, and the replacement of the contents of
    the palette from outside, which the palette announces through
    [colorsChanged]. *)
Inductive Op :=
| OpSetSelected (s : Z)
| OpClearSelection
| OpKeyPress (key : Key) (ctrl : bool)
| OpRemoveSelected
| OpMousePress (b : MouseButton) (pt : QPoint)
| OpToolTip (pt : QPoint)
| OpDrag (e : QDropEvent)
| OpClearDrop
| OpSetPalette (p : ColorPalette.t)
| OpColorsChanged (p : ColorPalette.t).

Definition run_op (o : Op) : M unit :=
  match o with
  | OpSetSelected s => setSelected s
  | OpClearSelection => clearSelection
  | OpKeyPress key ctrl => keyPressEvent key ctrl
  | OpRemoveSelected => removeSelected
  | OpMousePress b pt => mousePressEvent b pt
  | OpToolTip pt => toolTipEvent pt ;;; ret tt
  | OpDrag e => dropEvent e
  | OpClearDrop => clearDrop
  | OpSetPalette p => setPalette p
  | OpColorsChanged p => modify (with_palette p) ;;; paletteModified
  end.

(** The states a widget can be in: its initial state and what the
    operations make of it. *)
Inductive reachable : Swatch -> Prop :=
| reach_init p wd ht : reachable (Swatch_init p wd ht)
| reach_step w o w' :
    reachable w -> exec (run_op o) w = Some w' -> reachable w'.

(** The selection is none or an index of the palette. *)
Definition selection_ok (w : Swatch) : Prop :=
  selected w = -1 \/ 0 <= selected w < count w.

(** The index of a call into the palette lies in [0, n). *)
Definition call_in_range (c : call * Z) : Prop :=
  match c with
  | (PaletteColorAt i, n) | (PaletteNameAt i, n) | (PaletteEraseColor i, n) =>
    0 <= i < n
  | _ => True
  end.

Definition calls_in_range (w : Swatch) : Prop := Forall call_in_range (calls w).

(** The calls of [w'] are those of [w] followed by calls in range. *)
Definition extends (w w' : Swatch) : Prop :=
  exists new, calls w' = new ++ calls w /\ Forall call_in_range new.

(** Selection and palette are the same in both states. *)
Definition same_selection (w w' : Swatch) : Prop :=
  selected w' = selected w /\ palette w' = palette w.

(** The selection a call of [setSelected] settles on. *)
Definition normalized (w : Swatch) (s : Z) : Z :=
  if (s <? 0) || (count w <=? s) then -1 else s.

(** Five entries, nothing selected; three entries with the middle one
    selected; one entry, selected; seven of five selected, as after a
    truncation of the palette that has not been announced yet. *)
Definition five_swatch : Swatch := Swatch_init (red_palette 5 0) 160 64.
Definition three_swatch : Swatch :=
  with_selected 1 (Swatch_init (red_palette 3 0) 160 64).
Definition one_swatch : Swatch :=
  with_selected 0 (Swatch_init (red_palette 1 0) 160 64).
Definition stale_swatch : Swatch :=
  with_selected 7 (Swatch_init (red_palette 5 0) 160 64).

(** Ten entries in three forced columns on a widget of width zero, and ten
    entries laid out automatically on a widget of width zero. *)
Definition flat_forced_swatch : Swatch :=
  with_forced 0 3 (Swatch_init (red_palette 10 0) 0 64).
Definition flat_auto_swatch : Swatch := Swatch_init (red_palette 10 0) 0 64.

(** No entries, on a widget of 160 by 64 pixels with forced columns. *)
Definition void_swatch : Swatch :=
  with_forced 0 3 (Swatch_init (red_palette 0 0) 160 64).

(** ** Further entry points of the widget *)

(** [Swatch::setForcedColumns] and [Swatch::setForcedRows]; the change
    signals have no listener in the widget and are not recorded. *)
Definition setForcedColumns (forcedColumns : Z) : M unit :=
  w <- get ;;
  let forcedColumns := if forcedColumns <=? 0 then 0 else forcedColumns in
  if negb (forcedColumns =? forced_columns w) then
    modify (with_forced 0 forcedColumns)
  else ret tt.

Definition setForcedRows (forcedRows : Z) : M unit :=
  w <- get ;;
  let forcedRows := if forcedRows <=? 0 then 0 else forcedRows in
  if negb (forcedRows =? forced_rows w) then
    modify (with_forced forcedRows 0)
  else ret tt.

(** The widget resized by its host. *)
Definition with_size (wd ht : Z) (w : Swatch) : Swatch :=
  mkSwatch (palette w) (selected w) (color_size w) (margin w) (emptyColor w)
    (forced_rows w) (forced_columns w) (readonly w) (drop_index w)
    (drop_color w) (drop_overwrite w) wd ht (calls w).

Definition with_readonly (b : bool) (w : Swatch) : Swatch :=
  mkSwatch (palette w) (selected w) (color_size w) (margin w) (emptyColor w)
    (forced_rows w) (forced_columns w) b (drop_index w)
    (drop_color w) (drop_overwrite w) (width w) (height w) (calls w).

(** [Swatch::sizeHint]. *)
Definition sizeHint (w : Swatch) : option QSize :=
  match rowcols w with
  | None => None
  | Some rc =>
    if negb (QSize_isValid (color_size w)) || negb (QSize_isValid rc)
    then Some QSize_null
    else Some (mkQSize
                 ((s_width (color_size w) + margin w * 2) * s_width rc)
                 ((s_height (color_size w) + margin w * 2) * s_height rc))
  end.

(** ** The alpha pattern *)

(** The two tones of the pattern. *)
Inductive Tone := lightGray | darkGray.

(** A [QImage] of a given size: what each pixel holds, nothing for a pixel
    that has not been written since the image was allocated. *)
Record QImage := mkQImage
  { im_width : Z; im_height : Z; im_pixel : Z -> Z -> option Tone }.

(** [QImage(w, h, format)] allocates without writing. *)
Definition QImage_new (wd ht : Z) : QImage :=
  mkQImage wd ht (fun _ _ => None).

(** [QPainter::fillRect(x, y, w, h, c)] on an image, clipped to it. *)
Definition fillRect (x y wd ht : Z) (c : Tone) (im : QImage) : QImage :=
  mkQImage (im_width im) (im_height im)
    (fun px py =>
       if (x <=? px) && (px <? x + wd) && (y <=? py) && (py <? y + ht)
          && (0 <=? px) && (px <? im_width im)
          && (0 <=? py) && (py <? im_height im)
       then Some c else im_pixel im px py).

(** [alpha_pixmap], before the conversion of the image to a pixmap. *)
Definition alpha_pixmap : QImage :=
  fillRect 16 16 16 16 lightGray
    (fillRect 0 16 16 16 darkGray
       (fillRect 16 0 16 16 darkGray
          (fillRect 0 0 16 16 lightGray (QImage_new 32 32)))).

(** At most one of the two constraints is active, and neither is negative. *)
Definition forced_ok (w : Swatch) : Prop :=
  0 <= forced_rows w /\ 0 <= forced_columns w
  /\ (forced_rows w = 0 \/ forced_columns w = 0).

(** ** The two orientation tests *)

(** The test under which [Swatch::paintEvent] draws the insertion mark in
    the vertical style: the layout has one column. *)
Definition paint_vertical_style (rc : QSize) : bool := s_width rc =? 1.

(** The test under which [Swatch::Private::dropEvent] subdivides a cell in
    the vertical style: the palette hints at one column or one column is
    forced. *)
Definition drop_vertical_style (w : Swatch) : bool :=
  (ColorPalette.columns (palette w) =? 1) || (forced_columns w =? 1).

(** ** A removal made through the palette *)

(** [Swatch::palette()] hands out the palette itself: an entry erased
    through it goes, and the listener of the removal runs. *)
Definition external_eraseColor (i : Z) : M unit :=
  modify (fun w => with_palette (ColorPalette.eraseColor (palette w) i) w) ;;;
  on_colorRemoved i.

(** * Properties *)

(** ** Arithmetic of the numeric helpers *)


Lemma Qceiling_div (a b : Z) :
  0 < b -> Qceiling (inject_Z a / inject_Z b) = - ((- a) / b).
Proof.
  intros Hb. destruct b as [|p|p]; try lia.
  rewrite <- (Qceiling_comp _ _ (Qmake_Qdiv a p)).
  unfold Qceiling. reflexivity.
Qed.

Lemma ceil_div_bounds (a b : Z) :
  0 < b -> (- ((- a) / b) - 1) * b < a <= - ((- a) / b) * b.
Proof.
  intros Hb.
  pose proof (Z.div_mod (- a) b ltac:(lia)) as E.
  pose proof (Z.mod_pos_bound (- a) b Hb) as B.
  nia.
Qed.

Lemma fdiv_pos (a b : Z) :
  0 < b -> fdiv (inject_Z a) (inject_Z b) = Some (inject_Z a / inject_Z b)%Q.
Proof.
  intros Hb. unfold fdiv.
  destruct (Qeq_bool (inject_Z b) 0) eqn:E; [|reflexivity].
  apply Qeq_bool_eq in E. unfold Qeq in E. simpl in E. lia.
Qed.

Lemma fdiv_nonzero (a b : Z) :
  b <> 0 -> fdiv (inject_Z a) (inject_Z b) = Some (inject_Z a / inject_Z b)%Q.
Proof.
  intros Hb. unfold fdiv.
  destruct (Qeq_bool (inject_Z b) 0) eqn:E; [|reflexivity].
  apply Qeq_bool_eq in E. unfold Qeq in E. simpl in E. lia.
Qed.

(** ** Grid layout *)

Lemma rowcols_forced_rows (w : Swatch) :
  0 < count w -> 0 < forced_rows w ->
  rowcols w = Some (mkQSize (- ((- count w) / forced_rows w)) (forced_rows w)).
Proof.
  intros Hc Hr. unfold rowcols.
  destruct (count w =? 0) eqn:E0; [lia|].
  destruct (forced_rows w =? 0) eqn:E1; [lia|]. simpl.
  rewrite fdiv_pos by assumption.
  rewrite Qceiling_div by assumption. reflexivity.
Qed.

Lemma rowcols_forced_columns (w : Swatch) :
  0 < count w -> forced_rows w = 0 -> 0 < forced_columns w ->
  rowcols w =
  Some (mkQSize (forced_columns w) (- ((- count w) / forced_columns w))).
Proof.
  intros Hc Hr Hf. unfold rowcols.
  destruct (count w =? 0) eqn:E0; [lia|].
  rewrite Hr. simpl.
  destruct (forced_columns w =? 0) eqn:E1; [lia|]. simpl.
  rewrite fdiv_pos by assumption.
  rewrite Qceiling_div by assumption. reflexivity.
Qed.

Lemma rowcols_empty (w : Swatch) :
  count w = 0 -> rowcols w = Some QSize_null.
Proof. intros H. unfold rowcols. rewrite H. reflexivity. Qed.

(** C1: with a non-empty palette and forcedRows > 0 the layout has
    forcedRows rows and ceil(count / forcedRows) columns, whatever
    forcedColumns is; ten colours give (3, 4) under forcedColumns = 3 and
    (5, 2) under forcedRows = 2; an empty palette gives the empty layout
    whatever the other inputs are. *)
Theorem rowcols_layout (w : Swatch) :
  (0 < count w -> 0 < forced_rows w ->
   exists columns,
     rowcols w = Some (mkQSize columns (forced_rows w))
     /\ columns =
        Qceiling (inject_Z (count w) / inject_Z (forced_rows w))
     /\ (columns - 1) * forced_rows w < count w <= columns * forced_rows w
     /\ forall fc, rowcols (with_forced (forced_rows w) fc w) = rowcols w)
  /\ (count w = 10 -> forced_rows w = 0 -> forced_columns w = 3 ->
      rowcols w = Some (mkQSize 3 4))
  /\ (count w = 10 -> forced_rows w = 2 -> rowcols w = Some (mkQSize 5 2))
  /\ (count w = 0 ->
      rowcols w = Some QSize_null
      /\ QSize_isValid QSize_null = false /\ QSize_isEmpty QSize_null = true).
Proof.
  repeat split.
  - intros Hc Hr. exists (- ((- count w) / forced_rows w)).
    repeat split.
    + now apply rowcols_forced_rows.
    + now rewrite Qceiling_div.
    + apply ceil_div_bounds; assumption.
    + apply ceil_div_bounds; assumption.
    + intros fc. rewrite !rowcols_forced_rows; auto.
  - intros Hc Hr Hf. rewrite rowcols_forced_columns; try lia.
    rewrite Hc, Hf. reflexivity.
  - intros Hc Hr. rewrite rowcols_forced_rows; try lia.
    rewrite Hc, Hr. reflexivity.
  - now apply rowcols_empty.
Qed.

Lemma rowcols_layout_witness :
  rowcols (with_forced 2 7 (Swatch_init (red_palette 10 0) 160 64))
  = Some (mkQSize 5 2)
  /\ (exists columns,
        rowcols (with_forced 4 7 (Swatch_init (red_palette 10 0) 160 64))
        = Some (mkQSize columns 4)
        /\ (columns - 1) * 4 < 10 <= columns * 4)
  /\ rowcols (with_forced 0 3 (Swatch_init (red_palette 10 4) 0 0))
     = Some (mkQSize 3 4)
  /\ rowcols (with_forced 5 3 (Swatch_init (red_palette 0 4) 0 0))
     = Some QSize_null.
Proof.
  split; [|split; [|split]].
  - apply (proj1 (proj2 (proj2
      (rowcols_layout
         (with_forced 2 7 (Swatch_init (red_palette 10 0) 160 64)))))).
    + reflexivity.
    + reflexivity.
  - destruct (proj1
      (rowcols_layout
         (with_forced 4 7 (Swatch_init (red_palette 10 0) 160 64)))
      ltac:(reflexivity) ltac:(reflexivity)) as (columns & R & _ & B & _).
    exists columns. split; [exact R|exact B].
  - apply (proj1 (proj2
      (rowcols_layout
         (with_forced 0 3 (Swatch_init (red_palette 10 4) 0 0)))));
      reflexivity.
  - apply (proj2 (proj2 (proj2
      (rowcols_layout
         (with_forced 5 3 (Swatch_init (red_palette 0 4) 0 0)))))).
    reflexivity.
Defined.

(** ** Hit-testing the centre of a cell *)

Lemma Qfloor_unique (y : Q) (n : Z) :
  (inject_Z n <= y)%Q -> (y < inject_Z (n + 1))%Q -> Qfloor y = n.
Proof.
  intros Hl Hu.
  pose proof (Qfloor_le y) as Fl. pose proof (Qlt_floor y) as Fu.
  assert (n < Qfloor y + 1).
  { rewrite Zlt_Qlt. eapply Qle_lt_trans; eassumption. }
  assert (Qfloor y < n + 1).
  { rewrite Zlt_Qlt. eapply Qle_lt_trans; eassumption. }
  lia.
Qed.

Lemma to_int_unique (y : Q) (n : Z) :
  0 <= n -> (inject_Z n <= y)%Q -> (y < inject_Z (n + 1))%Q -> to_int y = n.
Proof.
  intros Hn Hl Hu. unfold to_int.
  assert (0 <= y)%Q as Hy.
  { eapply Qle_trans; [|exact Hl].
    change 0%Q with (inject_Z 0). rewrite <- Zle_Qle. exact Hn. }
  apply Qle_bool_iff in Hy. rewrite Hy. now apply Qfloor_unique.
Qed.

(** Along one axis: the rounded centre of cell [k] falls into cell [k] when
    the cell pitch exceeds one pixel, whatever the margin. *)
Lemma center_hits (cw : Q) (k m : Z) :
  (1 < cw)%Q -> 0 <= k ->
  to_int (inject_Z (qRound
      ((inject_Z k * cw + inject_Z m) + (cw - inject_Z (m * 2)) / 2)) / cw)
  = k.
Proof.
  intros Hcw Hk.
  set (c := ((inject_Z k * cw + inject_Z m) + (cw - inject_Z (m * 2)) / 2)%Q).
  assert (c == inject_Z k * cw + cw * (1 # 2))%Q as Hc.
  { unfold c. rewrite inject_Z_mult. field. }
  unfold qRound.
  pose proof (Qfloor_le (c + (1 # 2))) as Fl.
  pose proof (Qlt_floor (c + (1 # 2))) as Fu.
  set (p := Qfloor (c + (1 # 2))) in *.
  rewrite inject_Z_plus in Fu. change (inject_Z 1) with 1%Q in Fu.
  rewrite Hc in Fl, Fu.
  set (t := (inject_Z k * cw)%Q) in *.
  apply to_int_unique; [assumption| |].
  - apply Qle_shift_div_l; [lra|]. fold t. clearbody t p. lra.
  - apply Qlt_shift_div_r; [lra|].
    rewrite inject_Z_plus. change (inject_Z 1) with 1%Q.
    setoid_replace ((inject_Z k + 1) * cw)%Q with (t + cw)%Q
      by (unfold t; ring).
    clearbody t p. lra.
Qed.

(** A layout that is not empty has room for every entry. *)
Lemma rowcols_covers (w : Swatch) (rc : QSize) :
  rowcols w = Some rc -> QSize_isEmpty rc = false ->
  1 <= s_width rc /\ 1 <= s_height rc
  /\ 0 < count w <= s_width rc * s_height rc.
Proof.
  unfold rowcols, QSize_isEmpty. intros H E.
  apply orb_false_iff in E. destruct E as [E1 E2].
  apply Z.ltb_ge in E1. apply Z.ltb_ge in E2.
  pose proof (Nat2Z.is_nonneg (length (ColorPalette.colors (palette w)))) as Hn.
  fold (ColorPalette.count (palette w)) in Hn. fold (count w) in Hn.
  destruct (count w =? 0) eqn:E0.
  { inversion H; subst rc. simpl in *. lia. }
  apply Z.eqb_neq in E0.
  destruct (negb (forced_rows w =? 0)).
  - destruct (fdiv _ _) eqn:F in H; [|discriminate].
    inversion H; subst rc. simpl in *.
    rewrite fdiv_pos in F by lia. inversion F; subst q.
    rewrite Qceiling_div by lia.
    pose proof (ceil_div_bounds (count w) (forced_rows w) ltac:(lia)). lia.
  - match type of H with
    | match ?c with _ => _ end = _ => destruct c as [columns|]; [|discriminate]
    end.
    destruct (fdiv _ _) eqn:F in H; [|discriminate].
    inversion H; subst rc. simpl in *.
    rewrite fdiv_pos in F by lia. inversion F; subst q.
    rewrite Qceiling_div by lia.
    pose proof (ceil_div_bounds (count w) columns ltac:(lia)). lia.
Qed.

Lemma actualColorSize_defined (w : Swatch) (rc : QSize) :
  s_width rc <> 0 -> s_height rc <> 0 ->
  actualColorSize w rc =
  Some (mkQSizeF (inject_Z (width w) / inject_Z (s_width rc))
                 (inject_Z (height w) / inject_Z (s_height rc))).
Proof.
  intros H1 H2. unfold actualColorSize.
  now rewrite !fdiv_nonzero by assumption.
Qed.

Lemma pitch_gt_1 (a b : Z) :
  0 < b -> b < a -> (1 < inject_Z a / inject_Z b)%Q.
Proof.
  intros Hb Hab. apply Qlt_shift_div_l.
  - change 0%Q with (inject_Z 0). now rewrite <- Zlt_Qlt.
  - rewrite Qmult_1_l. now rewrite <- Zlt_Qlt.
Qed.

Lemma fdiv_Qpos (a b : Q) : (0 < b)%Q -> fdiv a b = Some (a / b)%Q.
Proof.
  intros Hb. unfold fdiv.
  destruct (Qeq_bool b 0) eqn:E; [|reflexivity].
  apply Qeq_bool_eq in E. rewrite E in Hb. discriminate.
Qed.

(** The round trip through the rounded centre of a cell, for a layout that
    is not empty and a widget with more pixels than columns and than rows. *)
Lemma indexAt_center_roundtrip (w : Swatch) (rc : QSize) (i : Z) :
  rowcols w = Some rc -> QSize_isEmpty rc = false ->
  s_width rc < width w -> s_height rc < height w ->
  0 <= i < count w ->
  exists r,
    indexRect w i = Some r
    /\ indexAt w (QPointF_toPoint (QRectF_center r)) = Some i.
Proof.
  intros Hrc Hne Hw Hh Hi.
  destruct (rowcols_covers w rc Hrc Hne) as (HC & HR & Hcount).
  destruct rc as [C R]. simpl in *.
  set (cw := (inject_Z (width w) / inject_Z C)%Q).
  set (ch := (inject_Z (height w) / inject_Z R)%Q).
  assert (1 < cw)%Q as Hcw by (apply pitch_gt_1; lia).
  assert (1 < ch)%Q as Hch by (apply pitch_gt_1; lia).
  assert (Z.rem i C = i mod C) as Hrem by (apply Z.rem_mod_nonneg; lia).
  assert (Z.quot i C = i / C) as Hquot by (apply Z.quot_div_nonneg; lia).
  pose proof (Z.mod_pos_bound i C ltac:(lia)) as Hmod.
  pose proof (Z.div_mod i C ltac:(lia)) as Hdm.
  assert (0 <= i / C) as Hrow0 by (apply Z.div_pos; lia).
  assert (i / C <= R - 1) as Hrow1.
  { assert (i / C < R); [|lia]. apply Z.div_lt_upper_bound; lia. }
  unfold indexRect, indexAt. rewrite Hrc.
  replace (i =? -1) with false by (symmetry; apply Z.eqb_neq; lia).
  replace (QSize_isValid (mkQSize C R)) with true
    by (symmetry; unfold QSize_isValid; simpl;
        apply andb_true_iff; split; apply Z.leb_le; lia).
  rewrite Hne. simpl orb. cbv iota.
  rewrite actualColorSize_defined by (simpl; lia). simpl s_width; simpl s_height.
  fold cw ch. unfold indexRect3.
  replace (i =? -1) with false by (symmetry; apply Z.eqb_neq; lia).
  simpl s_width.
  replace (C =? 0) with false by (symmetry; apply Z.eqb_neq; lia).
  eexists. split; [reflexivity|].
  unfold QRectF_center, QPointF_toPoint. simpl.
  rewrite !fdiv_Qpos by lra.
  rewrite Hrem, Hquot.
  rewrite (center_hits cw (i mod C) (margin w)) by (assumption || lia).
  rewrite (center_hits ch (i / C) (margin w)) by (assumption || lia).
  unfold qBoundZ.
  replace (Z.max 0 (Z.min (C - 1) (i mod C))) with (i mod C) by lia.
  replace (Z.max 0 (Z.min (R - 1) (i / C))) with (i / C) by lia.
  replace (i / C * C + i mod C) with i by lia.
  replace (count w <=? i) with false by (symmetry; apply Z.leb_gt; lia).
  reflexivity.
Qed.

(** C2, as stated, fails: on a widget five pixels wide with ten columns the
    cell of index 1 has positive size (half a pixel by ten), its centre is
    (3/4, 5), and hit-testing that centre gives index 2 when the centre is
    rounded to a pixel and index 0 when it is truncated. *)
Lemma indexAt_center_counterexample :
  exists r,
    rowcols narrow_swatch = Some (mkQSize 10 1)
    /\ indexRect narrow_swatch 1 = Some r
    /\ QRectF_isValid r = true
    /\ indexAt narrow_swatch (QPointF_toPoint (QRectF_center r)) = Some 2
    /\ indexAt narrow_swatch
         (mkQPoint (to_int (pf_x (QRectF_center r)))
                   (to_int (pf_y (QRectF_center r)))) = Some 0
    /\ indexAt narrow_swatch (QPointF_toPoint (QRectF_center r)) <> Some 1.
Proof.
  eexists. split; [reflexivity|]. split; [reflexivity|].
  split; [reflexivity|]. split; [reflexivity|]. split; [reflexivity|].
  discriminate.
Qed.

(** C2 (amended): for a non-empty layout on a widget with more pixels
    across than columns and more pixels down than rows (each cell is more
    than one pixel wide and high), and every index i in [0, count), the
    cell rectangle of i exists and hit-testing its centre, rounded to a
    pixel, returns i; this holds for every margin value. *)
Theorem indexAt_indexRect_center (w : Swatch) (rc : QSize) (i : Z) :
  rowcols w = Some rc -> QSize_isEmpty rc = false ->
  s_width rc < width w -> s_height rc < height w ->
  0 <= i < count w ->
  forall m : Z,
    exists r,
      indexRect (with_margin m w) i = Some r
      /\ indexAt (with_margin m w) (QPointF_toPoint (QRectF_center r))
         = Some i.
Proof.
  intros Hrc Hne Hw Hh Hi m.
  apply (indexAt_center_roundtrip (with_margin m w) rc i); assumption.
Qed.

Lemma indexAt_indexRect_center_witness :
  exists r,
    indexRect (with_margin 3 grid_3x4) 7 = Some r
    /\ indexAt (with_margin 3 grid_3x4) (QPointF_toPoint (QRectF_center r))
       = Some 7.
Proof.
  apply (indexAt_indexRect_center grid_3x4 (mkQSize 3 4) 7);
    try reflexivity; vm_compute; intuition discriminate.
Defined.

(** ** Drop resolution *)

(** A hit test gives no index or an index of the palette. *)
Lemma indexAt_range (w : Swatch) (pt : QPoint) (i : Z) :
  indexAt w pt = Some i -> i = -1 \/ 0 <= i < count w.
Proof.
  unfold indexAt. intros H.
  destruct (rowcols w) as [rc|] eqn:Hrc; [|discriminate].
  destruct (QSize_isEmpty rc) eqn:Hne.
  { inversion H. now left. }
  destruct (rowcols_covers w rc Hrc Hne) as (HC & HR & _).
  destruct (actualColorSize w rc) as [cs|]; [|discriminate].
  destruct (fdiv _ (sf_width cs)) as [fx|]; [|discriminate].
  destruct (fdiv _ (sf_height cs)) as [fy|]; [|discriminate].
  match type of H with
  | (if ?c <=? ?i then _ else _) = _ => destruct (Z.leb_spec c i)
  end; inversion H; subst.
  - now left.
  - right. unfold qBoundZ in *. split; [|assumption]. nia.
Qed.

(** C3: the code at a pointer in the vertical middle of a cell of a
    single-column widget.  The pointer (2, 24) lies in cell 1, which spans
    y in [16, 32): past the first quarter (20) and before the last (28),
    and the drag comes from elsewhere, so the claim gives overwrite; the
    code compares x = 2 with the vertical bound 20 and resolves to an
    insertion before cell 1.  At (10, 2), in the first quarter of cell 0,
    the code overwrites where the claim gives an insertion before. *)
Theorem dropEvent_single_column_uses_x :
  rowcols column_swatch = Some (mkQSize 1 4)
  /\ indexAt column_swatch (ev_pos (drag_at 2 24 false false)) = Some 1
  /\ indexRect column_swatch 1 = Some (mkQRectF 0 (64 # 4) 16 (64 # 4))
  /\ (exists w',
        exec (dropEvent (drag_at 2 24 false false)) column_swatch = Some w'
        /\ drop_index w' = 1 /\ drop_overwrite w' = false
        /\ disposition 1 w' = InsertBefore)
  /\ (exists w',
        exec (dropEvent (drag_at 10 2 false false)) column_swatch = Some w'
        /\ drop_index w' = 0 /\ drop_overwrite w' = true
        /\ disposition 0 w' = Overwrite).
Proof.
  repeat split; try reflexivity; eexists; repeat split; reflexivity.
Qed.

(** C4: the code on a multi-column layout that its orientation test takes
    for a single column.  The palette hints at one column and forcedColumns
    is 4: [rowcols] gives four columns and the test of [paintEvent] (one
    column in the layout) fails, but the test of [dropEvent] (a hint or a
    forced count of one) succeeds and the cell is subdivided along its
    height.  A pointer at (14, 2), in the last quarter of the width of cell
    0, resolves to overwrite of index 0 where the claim gives an insertion
    after it with target 1; a same-widget move at (8, 14), in the middle of
    the width of the empty cell 0, resolves to an insertion after it where
    the claim gives overwrite. *)
Theorem dropEvent_orientation_ignores_layout :
  rowcols hinted_swatch = Some (mkQSize 4 2)
  /\ paint_vertical_style (mkQSize 4 2) = false
  /\ drop_vertical_style hinted_swatch = true
  /\ indexAt hinted_swatch (ev_pos (drag_at 14 2 false false)) = Some 0
  /\ indexRect hinted_swatch 0 = Some (mkQRectF (0 # 4) (0 # 2) (64 # 4) (32 # 2))
  /\ (exists w',
        exec (dropEvent (drag_at 14 2 false false)) hinted_swatch = Some w'
        /\ drop_index w' = 0 /\ drop_index w' <> 0 + 1
        /\ disposition 0 w' = Overwrite /\ disposition 0 w' <> InsertAfter)
  /\ indexAt hinted_swatch (ev_pos (drag_at 8 14 true true)) = Some 0
  /\ QColor_eqb (ColorPalette.colorAt (palette hinted_swatch) 0)
       (emptyColor hinted_swatch) = true
  /\ (exists w',
        exec (dropEvent (drag_at 8 14 true true)) hinted_swatch = Some w'
        /\ drop_index w' = 1 /\ drop_overwrite w' = false
        /\ disposition 0 w' = InsertAfter /\ disposition 0 w' <> Overwrite).
Proof.
  repeat split; try reflexivity;
    eexists; repeat split; try reflexivity; discriminate.
Qed.

Lemma Qle_bool_false (a b : Q) : (b < a)%Q -> Qle_bool a b = false.
Proof.
  intros H. destruct (Qle_bool a b) eqn:E; [|reflexivity].
  apply Qle_bool_iff in E. exfalso. eapply Qlt_not_le; eassumption.
Qed.

Lemma Qlt_bool_true (a b : Q) : (a < b)%Q -> Qlt_bool a b = true.
Proof. intros H. unfold Qlt_bool. now rewrite Qle_bool_false. Qed.

Ltac run :=
  unfold exec, bind, get, lift, ret, modify, record; simpl.

(** Where the layout has more than one column and neither the column hint
    of the palette nor forcedColumns is 1, so that the orientation test of
    [dropEvent] agrees with the layout, the cell of the candidate is
    subdivided along its width: a pointer in the last quarter resolves to
    an insertion after the candidate, and a pointer between the first and
    the last quarter, on a cell that holds the empty colour, resolves to
    overwrite, also for a move that started in this widget. *)
Lemma dropEvent_multi_column_agreed
  (w : Swatch) (rc : QSize) (e : QDropEvent) (i : Z) (r : QRectF) :
  rowcols w = Some rc -> 1 < s_width rc ->
  ColorPalette.columns (palette w) <> 1 -> forced_columns w <> 1 ->
  indexAt w (ev_pos e) = Some i -> i <> -1 ->
  indexRect w i = Some r -> QRectF_isValid r = true ->
  ((QRectF_left r + r_w r * 3 / 4 <= pf_x (ev_posF e))%Q ->
   exists w',
     exec (dropEvent e) w = Some w'
     /\ drop_index w' = i + 1 /\ drop_overwrite w' = false
     /\ disposition i w' = InsertAfter)
  /\ ((QRectF_left r + r_w r / 4 < pf_x (ev_posF e))%Q ->
      (pf_x (ev_posF e) < QRectF_left r + r_w r * 3 / 4)%Q ->
      QColor_eqb (ColorPalette.colorAt (palette w) i) (emptyColor w) = true ->
      exists w',
        exec (dropEvent e) w = Some w'
        /\ drop_index w' = i /\ drop_overwrite w' = true
        /\ disposition i w' = Overwrite).
Proof.
  intros _ _ Hhint Hforced Hat Hi Hrect Hvalid.
  destruct (indexAt_range w _ i Hat) as [?|Hrange]; [contradiction|].
  assert (dropEvent e w =
    (let color := if ev_hasColor e then ev_colorData e
                  else if ev_hasText e then ev_textColor e
                  else drop_color w in
     if Qle_bool (QRectF_left r + r_w r * 3 / 4) (pf_x (ev_posF e)) then
       modify (with_drop (i + 1) color false) w
     else if Qlt_bool (QRectF_left r + r_w r / 4) (pf_x (ev_posF e)) then
       bind (may_overwrite e i)
            (fun ok => modify (with_drop i color ok)) w
     else modify (with_drop i color false) w)) as Hrun.
  { unfold dropEvent. unfold bind at 1. unfold get at 1.
    unfold bind at 1. unfold lift at 1. rewrite Hat.
    replace (i =? -1) with false by (symmetry; apply Z.eqb_neq; lia).
    unfold bind at 1. unfold lift at 1. rewrite Hrect.
    replace (i <? count w) with true by (symmetry; apply Z.ltb_lt; lia).
    rewrite Hvalid.
    replace (ColorPalette.columns (palette w) =? 1) with false
      by (symmetry; now apply Z.eqb_neq).
    replace (forced_columns w =? 1) with false
      by (symmetry; now apply Z.eqb_neq).
    cbv zeta. change (true && true) with true.
    change (false || false) with false. cbv iota.
    destruct (Qle_bool _ _); [reflexivity|].
    destruct (Qlt_bool _ _); reflexivity. }
  split.
  - intros Hlast. apply Qle_bool_iff in Hlast.
    unfold exec. rewrite Hrun. cbv zeta. rewrite Hlast.
    eexists. split; [reflexivity|]. simpl.
    repeat split. unfold disposition. simpl.
    now rewrite Z.eqb_refl.
  - intros Hfirst Hnotlast Hempty.
    pose proof (Qle_bool_false _ _ Hnotlast) as E1.
    pose proof (Qlt_bool_true _ _ Hfirst) as E2.
    unfold exec. rewrite Hrun. cbv zeta. rewrite E1, E2.
    unfold may_overwrite.
    destruct (ev_isMoveAction e), (ev_sourceIsOwner e); run;
      try rewrite Hempty; eexists; (split; [reflexivity|]); simpl;
      repeat split; unfold disposition; simpl; reflexivity.
Qed.

Lemma dropEvent_multi_column_agreed_witness :
  (exists w',
     exec (dropEvent (drag_at 14 2 false false)) grid_4x2 = Some w'
     /\ drop_index w' = 0 + 1 /\ drop_overwrite w' = false
     /\ disposition 0 w' = InsertAfter)
  /\ (exists w',
        exec (dropEvent (drag_at 8 14 true true)) grid_4x2 = Some w'
        /\ drop_index w' = 0 /\ drop_overwrite w' = true
        /\ disposition 0 w' = Overwrite).
Proof.
  split.
  - apply (proj1 (dropEvent_multi_column_agreed grid_4x2 (mkQSize 4 2)
                    (drag_at 14 2 false false) 0
                    (mkQRectF (0 # 4) (0 # 2) (64 # 4) (32 # 2))
                    eq_refl eq_refl ltac:(discriminate) ltac:(discriminate) eq_refl
                    ltac:(discriminate) eq_refl eq_refl)).
    vm_compute. discriminate.
  - apply (proj2 (dropEvent_multi_column_agreed grid_4x2 (mkQSize 4 2)
                    (drag_at 8 14 true true) 0
                    (mkQRectF (0 # 4) (0 # 2) (64 # 4) (32 # 2))
                    eq_refl eq_refl ltac:(discriminate) ltac:(discriminate) eq_refl
                    ltac:(discriminate) eq_refl eq_refl)).
    + reflexivity.
    + reflexivity.
    + reflexivity.
Defined.

(** ** Selection *)

Lemma extends_refl (w : Swatch) : extends w w.
Proof. exists []. split; [reflexivity|constructor]. Qed.

Lemma extends_trans (a b c : Swatch) :
  extends a b -> extends b c -> extends a c.
Proof.
  intros (n1 & E1 & F1) (n2 & E2 & F2). exists (n2 ++ n1). split.
  - rewrite E2, E1. now rewrite app_assoc.
  - apply Forall_app. now split.
Qed.

Lemma extends_calls_in_range (w w' : Swatch) :
  extends w w' -> calls_in_range w -> calls_in_range w'.
Proof.
  intros (n & E & F) H. unfold calls_in_range. rewrite E.
  apply Forall_app. now split.
Qed.

Lemma normalized_ok (w : Swatch) (s : Z) :
  normalized w s = -1 \/ 0 <= normalized w s < count w.
Proof.
  unfold normalized.
  destruct (Z.ltb_spec s 0); simpl; [now left|].
  destruct (Z.leb_spec (count w) s); [now left|]. right. lia.
Qed.

(** [setSelected] always returns, settles on the normalized index, leaves
    the palette alone and reads it only at that index. *)
Lemma setSelected_run (w : Swatch) (s : Z) :
  exists w',
    setSelected s w = Some (tt, w')
    /\ selected w' = normalized w s
    /\ palette w' = palette w
    /\ extends w w'.
Proof.
  pose proof (normalized_ok w s) as Hn.
  unfold setSelected. run.
  change (count (with_call (CallSetSelected s) w)) with (count w).
  fold (normalized w s).
  destruct (Z.eqb_spec (normalized w s) (selected w)) as [E|E]; simpl.
  - eexists. split; [reflexivity|]. simpl. repeat split; auto.
    exists [(CallSetSelected s, count w)]. split; [reflexivity|].
    repeat constructor.
  - destruct (Z.eqb_spec (normalized w s) (-1)) as [E1|E1]; simpl.
    + eexists. split; [reflexivity|]. simpl. repeat split; auto.
      eexists [_; _]. split; [reflexivity|]. repeat constructor.
    + eexists. split; [reflexivity|]. simpl. repeat split; auto.
      eexists [_; _; _; _]. split; [reflexivity|].
      repeat constructor; simpl; unfold count in *; simpl; lia.
Qed.

Lemma remove_nth_length {A} (n : nat) (l : list A) :
  (n < length l)%nat ->
  length (ColorPalette.remove_nth n l) = pred (length l).
Proof.
  revert n. induction l as [|a l IH]; intros n H; simpl in *; [lia|].
  destruct n as [|n]; [reflexivity|].
  simpl. rewrite IH by lia. destruct l; simpl in *; lia.
Qed.

Lemma count_eraseColor (p : ColorPalette.t) (i : Z) :
  0 <= i < ColorPalette.count p ->
  ColorPalette.count (ColorPalette.eraseColor p i) = ColorPalette.count p - 1.
Proof.
  unfold ColorPalette.count, ColorPalette.eraseColor. intros H.
  destruct (Z.ltb_spec i 0); [lia|]. simpl.
  rewrite remove_nth_length by lia. lia.
Qed.

(** Erasing an entry in range: the palette loses it, the listener clears
    the selection when it was the selected entry, and the calls made are in
    range. *)
Lemma palette_eraseColor_run (w : Swatch) (i : Z) :
  0 <= i < count w ->
  exists w',
    palette_eraseColor i w = Some (tt, w')
    /\ palette w' = ColorPalette.eraseColor (palette w) i
    /\ selected w' = (if i =? selected w then -1 else selected w)
    /\ readonly w' = readonly w
    /\ extends w w'.
Proof.
  intros Hi. unfold palette_eraseColor, on_colorRemoved. run.
  destruct (Z.eqb_spec i (selected w)) as [E|E].
  - match goal with
    | |- context [clearSelection ?s] =>
      destruct (setSelected_run s (-1)) as (w' & R & S & P & X)
    end.
    unfold clearSelection. rewrite R. exists w'.
    split; [reflexivity|]. split; [rewrite P; reflexivity|].
    split; [rewrite S; reflexivity|]. split.
    + unfold setSelected in R. revert R. run.
      repeat match goal with
             | |- context [if ?c then _ else _] => destruct c; simpl
             end; intros R; inversion R; reflexivity.
    + destruct X as (n & En & Fn). exists (n ++ [(PaletteEraseColor i, count w)]).
      split.
      * rewrite En. simpl. now rewrite <- app_assoc.
      * apply Forall_app. split; [assumption|]. repeat constructor; simpl; lia.
  - eexists. split; [reflexivity|]. simpl. repeat split.
    exists [(PaletteEraseColor i, count w)]. split; [reflexivity|].
    repeat constructor; simpl; lia.
Qed.

Lemma bind_Some {A B} (m : M A) (f : A -> M B) (w : Swatch) (r : B * Swatch) :
  bind m f w = Some r ->
  exists a w1, m w = Some (a, w1) /\ f a w1 = Some r.
Proof.
  unfold bind. destruct (m w) as [[a w1]|]; [|discriminate].
  intros H. now exists a, w1.
Qed.

Lemma extends_with_call (w : Swatch) (c : call) :
  call_in_range (c, count w) -> extends w (with_call c w).
Proof.
  intros H. exists [(c, count w)]. split; [reflexivity|]. now constructor.
Qed.

(** What a run of [setSelected] guarantees about the state it ends in. *)
Lemma setSelected_inv (w : Swatch) (s : Z) (r : unit * Swatch) :
  setSelected s w = Some r ->
  selection_ok (snd r) /\ extends w (snd r) /\ palette (snd r) = palette w
  /\ selected (snd r) = normalized w s.
Proof.
  destruct (setSelected_run w s) as (w' & R & S & P & X).
  rewrite R. intros H. inversion H; subst r. simpl.
  repeat split; try assumption.
  unfold selection_ok, count. rewrite S, P. apply normalized_ok.
Qed.

Lemma removeSelected_inv (w : Swatch) (r : unit * Swatch) :
  selection_ok w -> removeSelected w = Some r ->
  selection_ok (snd r) /\ extends w (snd r).
Proof.
  intros Hs. unfold removeSelected. unfold bind at 1, get at 1.
  destruct (negb (selected w =? -1) && negb (readonly w)) eqn:E.
  - apply andb_true_iff in E. destruct E as [E _].
    apply negb_true_iff, Z.eqb_neq in E.
    destruct Hs as [?|Hs]; [contradiction|].
    destruct (palette_eraseColor_run w (selected w) Hs)
      as (w1 & R & _ & _ & _ & X1).
    unfold bind at 1. rewrite R. unfold bind at 1, get at 1.
    intros H. apply setSelected_inv in H. destruct H as (S & X2 & _).
    split; [assumption|]. eapply extends_trans; eassumption.
  - intros H. inversion H; subst r. simpl. split; [assumption|].
    apply extends_refl.
Qed.

Lemma selection_ok_with_call (w : Swatch) (c : call) :
  selection_ok w -> selection_ok (with_call c w).
Proof. exact (fun H => H). Qed.

(** A run of a computation that ends in [setSelected]. *)
Ltac finish_setSelected X0 :=
  match goal with
  | H : setSelected _ _ = Some _ |- _ =>
    apply setSelected_inv in H; destruct H as (? & ? & _);
    split; [assumption | eapply extends_trans; [exact X0 | eassumption]]
  end.

Lemma keyPressEvent_inv (w : Swatch) (key : Key) (ctrl : bool)
  (r : unit * Swatch) :
  selection_ok w -> keyPressEvent key ctrl w = Some r ->
  selection_ok (snd r) /\ extends w (snd r).
Proof.
  intros Hs H. unfold keyPressEvent in H.
  unfold bind at 1, get at 1 in H.
  apply bind_Some in H. destruct H as (u & w0 & H0 & H).
  assert (selection_ok w0 /\ extends w w0 /\ readonly w0 = readonly w
          /\ selected w0 = selected w /\ palette w0 = palette w)
    as (Hs0 & X0 & Hro & Hsel & Hpal).
  { destruct (count w =? 0); inversion H0; subst.
    - repeat split; [assumption|]. now apply extends_with_call.
    - repeat split; [assumption|]. apply extends_refl. }
  clear H0.
  apply bind_Some in H. destruct H as (rc & w1 & H1 & H).
  unfold lift in H1. destruct (rowcols w); [|discriminate].
  inversion H1; subst q w1. clear H1.
  destruct key.
  - finish_setSelected X0.
  - finish_setSelected X0.
  - finish_setSelected X0.
  - finish_setSelected X0.
  - destruct ctrl.
    + finish_setSelected X0.
    + apply bind_Some in H. destruct H as (m & w1 & H1 & H).
      unfold rem in H1. destruct (_ =? 0); [discriminate|].
      inversion H1; subst. finish_setSelected X0.
  - destruct ctrl.
    + finish_setSelected X0.
    + apply bind_Some in H. destruct H as (m & w1 & H1 & H).
      unfold rem in H1. destruct (_ =? 0); [discriminate|].
      inversion H1; subst. finish_setSelected X0.
  - destruct (removeSelected_inv w0 r Hs0 H) as (S & X).
    split; [assumption|]. eapply extends_trans; eassumption.
  - destruct (negb (selected w =? -1) && negb (readonly w)) eqn:E.
    + apply andb_true_iff in E. destruct E as [E _].
      apply negb_true_iff, Z.eqb_neq in E.
      assert (0 <= selected w < count w0) as Hr.
      { unfold selection_ok in Hs0. rewrite Hsel in Hs0.
        destruct Hs0 as [Hs0|Hs0]; [contradiction|assumption]. }
      destruct (palette_eraseColor_run w0 (selected w) Hr)
        as (w1 & R & _ & _ & _ & X1).
      unfold bind at 1 in H. rewrite R in H.
      unfold bind at 1, get at 1 in H.
      apply setSelected_inv in H. destruct H as (S & X2 & _).
      split; [assumption|].
      eapply extends_trans; [exact X0|].
      eapply extends_trans; eassumption.
    + finish_setSelected X0.
  - destruct (selected w =? -1).
    + finish_setSelected X0.
    + apply bind_Some in H. destruct H as (m & w1 & H1 & H).
      unfold rem in H1. destruct (_ =? 0); [discriminate|].
      inversion H1; subst. finish_setSelected X0.
  - destruct (selected w =? -1).
    + finish_setSelected X0.
    + apply bind_Some in H. destruct H as (m & w1 & H1 & H).
      unfold rem in H1. destruct (_ =? 0); [discriminate|].
      inversion H1; subst. finish_setSelected X0.
  - unfold record, modify in H. inversion H; subst r. simpl.
    split; [assumption|]. eapply extends_trans; [exact X0|].
    now apply extends_with_call.
Qed.

Lemma same_selection_ok (w w' : Swatch) :
  same_selection w w' -> selection_ok w -> selection_ok w'.
Proof.
  intros [S P] H. unfold selection_ok, count in *. now rewrite S, P.
Qed.

Lemma palette_colorAt_run (w : Swatch) (i : Z) :
  palette_colorAt i w =
  Some (ColorPalette.colorAt (palette w) i, with_call (PaletteColorAt i) w).
Proof. reflexivity. Qed.

Lemma may_overwrite_inv (e : QDropEvent) (w : Swatch) (i : Z)
  (r : bool * Swatch) :
  0 <= i < count w -> may_overwrite e i w = Some r ->
  same_selection w (snd r) /\ extends w (snd r).
Proof.
  intros Hi. unfold may_overwrite.
  destruct (negb (ev_isMoveAction e)); [|destruct (negb (ev_sourceIsOwner e))];
    run; intros H; inversion H; subst r; simpl;
    (split; [split; reflexivity|]);
    try apply extends_refl.
  apply extends_with_call. exact Hi.
Qed.

Lemma dropEvent_inv (w : Swatch) (e : QDropEvent) (r : unit * Swatch) :
  dropEvent e w = Some r ->
  same_selection w (snd r) /\ extends w (snd r).
Proof.
  unfold dropEvent. unfold bind at 1, get at 1. intros H.
  apply bind_Some in H. destruct H as (i & w1 & H1 & H).
  unfold lift in H1. destruct (indexAt w (ev_pos e)) as [i'|] eqn:Hat;
    [|discriminate].
  inversion H1; subst i' w1. clear H1.
  apply bind_Some in H. destruct H as (rect & w1 & H1 & H).
  unfold lift in H1. destruct (indexRect w _); [|discriminate].
  inversion H1; subst q w1. clear H1.
  assert (forall j c o u (r' : unit * Swatch),
            modify (with_drop j c o) u = Some r' ->
            same_selection u (snd r') /\ extends u (snd r')) as Hmod.
  { intros j c o u r' Hm. inversion Hm; subst r'. simpl.
    split; [split; reflexivity|]. exists []. split; [reflexivity|constructor]. }
  assert (forall j c (r' : unit * Swatch),
            0 <= j < count w ->
            bind (may_overwrite e j)
                 (fun ok => modify (with_drop j c ok)) w = Some r' ->
            same_selection w (snd r') /\ extends w (snd r')) as Hover.
  { intros j c r' Hj Hb. apply bind_Some in Hb.
    destruct Hb as (ok & u & Hu & Hb).
    apply (may_overwrite_inv e w j (ok, u) Hj) in Hu. simpl in Hu.
    destruct Hu as ((S1 & P1) & X1).
    apply Hmod in Hb. destruct Hb as ((S2 & P2) & X2).
    split; [split; congruence|]. eapply extends_trans; eassumption. }
  destruct ((_ <? count w) && _) eqn:G; [|now apply Hmod in H].
  apply andb_true_iff in G. destruct G as [G _]. apply Z.ltb_lt in G.
  assert (0 <= (if i =? -1 then count w else i) < count w) as Hj.
  { destruct (indexAt_range w _ i Hat) as [E|E].
    - subst i. simpl in G. lia.
    - destruct (Z.eqb_spec i (-1)); lia. }
  destruct (_ || _).
  - destruct (Qle_bool _ _); [now apply Hmod in H|].
    destruct (Qlt_bool _ _); [|now apply Hmod in H].
    now apply Hover in H.
  - destruct (Qle_bool _ _); [now apply Hmod in H|].
    destruct (Qlt_bool _ _); [|now apply Hmod in H].
    now apply Hover in H.
Qed.

Lemma toolTipEvent_inv (w : Swatch) (pt : QPoint) (r : bool * Swatch) :
  toolTipEvent pt w = Some r ->
  same_selection w (snd r) /\ extends w (snd r).
Proof.
  unfold toolTipEvent. unfold bind at 1, get at 1. intros H.
  apply bind_Some in H. destruct H as (i & w1 & H1 & H).
  unfold lift in H1. destruct (indexAt w pt) as [i'|] eqn:Hat; [|discriminate].
  inversion H1; subst i' w1. clear H1.
  destruct (Z.eqb_spec i (-1)) as [E|E]; simpl in H.
  - inversion H; subst r. simpl. split; [split; reflexivity|apply extends_refl].
  - destruct (indexAt_range w _ i Hat) as [?|Hi]; [contradiction|].
    revert H. run. destruct (indexRect _ i); [|discriminate].
    intros H. inversion H; subst r. simpl. split; [split; reflexivity|].
    exists [(PaletteNameAt i, count w); (PaletteColorAt i, count w)].
    split; [reflexivity|]. repeat constructor; simpl; lia.
Qed.

Lemma mousePressEvent_inv (w : Swatch) (b : MouseButton) (pt : QPoint)
  (r : unit * Swatch) :
  selection_ok w -> mousePressEvent b pt w = Some r ->
  selection_ok (snd r) /\ extends w (snd r).
Proof.
  intros Hs. unfold mousePressEvent. unfold bind at 1, get at 1.
  destruct b; intros H.
  - apply bind_Some in H. destruct H as (i & w1 & H1 & H).
    unfold lift in H1. destruct (indexAt w pt); [|discriminate].
    inversion H1; subst. apply setSelected_inv in H. tauto.
  - apply bind_Some in H. destruct H as (i & w1 & H1 & H).
    unfold lift in H1. destruct (indexAt w pt); [|discriminate].
    inversion H1; subst. inversion H; subst r. simpl.
    split; [assumption|apply extends_refl].
  - inversion H; subst r. simpl. split; [assumption|apply extends_refl].
Qed.

Lemma setPalette_inv (w : Swatch) (p : ColorPalette.t) (r : unit * Swatch) :
  setPalette p w = Some r ->
  selection_ok (snd r) /\ extends w (snd r).
Proof.
  unfold setPalette, clearSelection. intros H.
  apply bind_Some in H. destruct H as (u & w1 & H1 & H).
  apply setSelected_inv in H1. simpl in H1.
  destruct H1 as (_ & X & _ & S).
  inversion H; subst r. simpl. split.
  - left. simpl. rewrite S. reflexivity.
  - destruct X as (n & E & F). exists n. now split.
Qed.

Lemma colorsChanged_inv (w : Swatch) (p : ColorPalette.t) (r : unit * Swatch) :
  selection_ok w ->
  bind (modify (with_palette p)) (fun _ => paletteModified) w = Some r ->
  selection_ok (snd r) /\ extends w (snd r).
Proof.
  intros Hs. unfold bind at 1, modify at 1. unfold paletteModified.
  unfold bind at 1, get at 1.
  destruct (Z.leb_spec (count (with_palette p w)) (selected (with_palette p w)))
    as [L|L]; intros H.
  - apply setSelected_inv in H. destruct H as (S & (n & E & F) & _).
    split; [assumption|]. exists n. now split.
  - inversion H; subst r. simpl. split.
    + unfold selection_ok in *. simpl in *. lia.
    + exists []. split; [reflexivity|constructor].
Qed.

(** Every operation keeps the selection none or in range and passes only
    indices of the palette to it. *)
Lemma run_op_inv (o : Op) (w : Swatch) (r : unit * Swatch) :
  selection_ok w -> run_op o w = Some r ->
  selection_ok (snd r) /\ extends w (snd r).
Proof.
  intros Hs H. destruct o; simpl in H.
  - apply setSelected_inv in H. tauto.
  - apply setSelected_inv in H. tauto.
  - now apply keyPressEvent_inv in H.
  - now apply removeSelected_inv in H.
  - now apply mousePressEvent_inv in H.
  - apply bind_Some in H. destruct H as (b & w1 & H1 & H).
    apply toolTipEvent_inv in H1. simpl in H1. destruct H1 as (S & X).
    inversion H; subst r. simpl. split; [|assumption].
    eapply same_selection_ok; eassumption.
  - apply dropEvent_inv in H. destruct H as (S & X). split; [|assumption].
    eapply same_selection_ok; eassumption.
  - inversion H; subst r. simpl. split; [assumption|].
    exists []. split; [reflexivity|constructor].
  - now apply setPalette_inv in H.
  - now apply colorsChanged_inv in H.
Qed.

Lemma reachable_inv (w : Swatch) :
  reachable w -> selection_ok w /\ calls_in_range w.
Proof.
  induction 1 as [p wd ht|w o w' Hr [IHs IHc] Hstep].
  - split; [now left|constructor].
  - unfold exec in Hstep.
    destruct (run_op o w) as [r|] eqn:E; [|discriminate].
    inversion Hstep; subst w'.
    destruct (run_op_inv o w r IHs E) as (S & X).
    split; [assumption|]. eapply extends_calls_in_range; eassumption.
Qed.

(** Over the operations of the widget itself and a replacement of the
    palette announced by [colorsChanged], the selection is none (-1) or an
    index in [0, count) in every state reached, and every operation keeps
    it so; [setSelected] always returns and maps an index outside
    [0, count) to -1 and keeps one inside; [paletteModified] clears the
    selection when count <= selected; erasing the selected entry clears the
    selection through the listener of the removal.  A removal of another
    entry through the palette is not among these operations. *)
Theorem selection_invariant :
  (forall w, reachable w -> selection_ok w)
  /\ (forall o w w',
        selection_ok w -> exec (run_op o) w = Some w' -> selection_ok w')
  /\ (forall w s, exists w',
        exec (setSelected s) w = Some w'
        /\ selected w' = (if (s <? 0) || (count w <=? s) then -1 else s)
        /\ selection_ok w')
  /\ (forall w, count w <= selected w -> exists w',
        exec paletteModified w = Some w' /\ selected w' = -1
        /\ palette w' = palette w)
  /\ (forall w, 0 <= selected w < count w -> exists w',
        exec (palette_eraseColor (selected w)) w = Some w'
        /\ palette w' = ColorPalette.eraseColor (palette w) (selected w)
        /\ selected w' = -1).
Proof.
  split; [|split; [|split; [|split]]].
  - intros w H. now apply reachable_inv.
  - intros o w w' Hs H. unfold exec in H.
    destruct (run_op o w) as [r|] eqn:E; [|discriminate].
    inversion H; subst w'. now apply (run_op_inv o w r).
  - intros w s. destruct (setSelected_run w s) as (w' & R & S & P & X).
    exists w'. unfold exec. rewrite R. split; [reflexivity|].
    split; [exact S|]. unfold selection_ok, count. rewrite S, P.
    apply normalized_ok.
  - intros w H. unfold exec, paletteModified. unfold bind at 1, get at 1.
    replace (count w <=? selected w) with true
      by (symmetry; now apply Z.leb_le).
    destruct (setSelected_run w (-1)) as (w' & R & S & P & X).
    unfold clearSelection. rewrite R. exists w'. simpl.
    repeat split; assumption.
  - intros w H.
    destruct (palette_eraseColor_run w (selected w) H)
      as (w' & R & P & S & _).
    exists w'. unfold exec. rewrite R. split; [reflexivity|].
    split; [assumption|]. now rewrite Z.eqb_refl in S.
Qed.

Lemma selection_invariant_witness :
  (exists w',
     exec paletteModified stale_swatch = Some w' /\ selected w' = -1
     /\ palette w' = palette stale_swatch)
  /\ (exists w',
        exec (palette_eraseColor (selected three_swatch)) three_swatch
        = Some w'
        /\ palette w' =
           ColorPalette.eraseColor (palette three_swatch)
             (selected three_swatch)
        /\ selected w' = -1)
  /\ selection_ok five_swatch.
Proof.
  split; [|split].
  - apply (proj1 (proj2 (proj2 (proj2 selection_invariant))) stale_swatch).
    vm_compute. discriminate.
  - apply (proj2 (proj2 (proj2 (proj2 selection_invariant))) three_swatch).
    vm_compute. split; [discriminate|reflexivity].
  - apply (proj1 selection_invariant five_swatch). apply reach_init.
Defined.

(** A removal of an entry other than the selection, through the palette:
    the listener leaves the selection where it is and the palette is one
    entry shorter. *)
Lemma external_eraseColor_other (w : Swatch) (i : Z) :
  0 <= i < count w -> i <> selected w ->
  exists w',
    exec (external_eraseColor i) w = Some w'
    /\ selected w' = selected w /\ count w' = count w - 1.
Proof.
  intros Hi Hne. unfold exec, external_eraseColor, on_colorRemoved. run.
  replace (i =? selected w) with false by (symmetry; now apply Z.eqb_neq).
  eexists. split; [reflexivity|]. simpl. split; [reflexivity|].
  unfold count. simpl. now apply count_eraseColor.
Qed.

(** C5: the code at a removal that is not of the selected entry.  With
    five entries and the last one selected, a state the widget reaches by
    [setSelected], the removal of entry 0 through the palette runs the
    listener of the removal, which compares the index with the selection
    and does nothing else: the selection stays 4 while count is 4, neither
    none nor in [0, count).  The check of [paletteModified], count <=
    selected, would clear it, but that listener is not the one that
    runs. *)
Theorem selection_escapes_on_removal :
  exists w1 w2 w3,
    exec (run_op (OpSetSelected 4)) five_swatch = Some w1
    /\ reachable w1
    /\ selected w1 = 4 /\ count w1 = 5 /\ selection_ok w1
    /\ exec (external_eraseColor 0) w1 = Some w2
    /\ selected w2 = 4 /\ count w2 = 4
    /\ ~ selection_ok w2
    /\ exec paletteModified w2 = Some w3
    /\ selected w3 = -1.
Proof.
  eexists. eexists. eexists.
  split; [vm_compute; reflexivity|]. split.
  { apply (reach_step five_swatch (OpSetSelected 4));
      [apply reach_init|vm_compute; reflexivity]. }
  split; [reflexivity|]. split; [reflexivity|].
  split; [right; vm_compute; split; [discriminate|reflexivity]|].
  split; [vm_compute; reflexivity|].
  split; [reflexivity|]. split; [reflexivity|].
  split.
  { intros [H|[_ H]]; [discriminate H|]. revert H. vm_compute. discriminate. }
  split; [vm_compute; reflexivity|reflexivity].
Qed.

(** ** Keyboard navigation *)

(** With a palette that is not empty and a layout that is defined, a key
    press comes down to the branch of its key. *)
Lemma keyPressEvent_Right (w : Swatch) (rc : QSize) (ctrl : bool) :
  rowcols w = Some rc -> count w <> 0 ->
  keyPressEvent Key_Right ctrl w =
  setSelected (if selected w =? -1 then 0
               else if selected w <? count w - 1 then selected w + 1
               else selected w) w.
Proof.
  intros Hrc Hc. unfold keyPressEvent. unfold bind at 1, get at 1.
  replace (count w =? 0) with false by (symmetry; now apply Z.eqb_neq).
  unfold bind at 1, ret at 1. unfold bind at 1, lift at 1. rewrite Hrc.
  reflexivity.
Qed.

Lemma keyPressEvent_Left (w : Swatch) (rc : QSize) (ctrl : bool) :
  rowcols w = Some rc -> count w <> 0 ->
  keyPressEvent Key_Left ctrl w =
  setSelected (if selected w =? -1 then count w - 1
               else if 0 <? selected w then selected w - 1
               else selected w) w.
Proof.
  intros Hrc Hc. unfold keyPressEvent. unfold bind at 1, get at 1.
  replace (count w =? 0) with false by (symmetry; now apply Z.eqb_neq).
  unfold bind at 1, ret at 1. unfold bind at 1, lift at 1. rewrite Hrc.
  reflexivity.
Qed.

Lemma setSelected_in_range (w : Swatch) (s : Z) :
  0 <= s < count w ->
  exists w',
    exec (setSelected s) w = Some w' /\ selected w' = s
    /\ palette w' = palette w.
Proof.
  intros Hs. destruct (setSelected_run w s) as (w' & R & S & P & _).
  exists w'. unfold exec. rewrite R. split; [reflexivity|].
  split; [|assumption]. rewrite S. unfold normalized.
  destruct (Z.ltb_spec s 0); [lia|]. destruct (Z.leb_spec (count w) s); [lia|].
  reflexivity.
Qed.

(** C6: with a defined layout and n > 0 entries (n = 5 in the examples of
    the claim), Right from no selection selects index 0 and Left selects
    n - 1; Right at the last index leaves the selection where it is; Right
    and Left elsewhere move by one, and Left at index 0 stays; Backspace on
    the only entry of a palette that may be modified removes it and leaves
    no selection. *)
Theorem keyPressEvent_left_right_backspace
  (w : Swatch) (rc : QSize) (ctrl : bool) :
  rowcols w = Some rc ->
  (0 < count w -> selected w = -1 ->
   (exists w', exec (keyPressEvent Key_Right ctrl) w = Some w'
               /\ selected w' = 0 /\ palette w' = palette w)
   /\ (exists w', exec (keyPressEvent Key_Left ctrl) w = Some w'
                  /\ selected w' = count w - 1 /\ palette w' = palette w))
  /\ (0 <= selected w < count w ->
      (exists w', exec (keyPressEvent Key_Right ctrl) w = Some w'
                  /\ selected w' = Z.min (selected w + 1) (count w - 1)
                  /\ palette w' = palette w)
      /\ (exists w', exec (keyPressEvent Key_Left ctrl) w = Some w'
                     /\ selected w' = Z.max (selected w - 1) 0
                     /\ palette w' = palette w))
  /\ (count w = 1 -> selected w = 0 -> readonly w = false ->
      exists w', exec (keyPressEvent Key_Backspace ctrl) w = Some w'
                 /\ selected w' = -1
                 /\ palette w' = ColorPalette.eraseColor (palette w) 0
                 /\ count w' = 0).
Proof.
  intros Hrc. split; [|split].
  - intros Hc Hs. split.
    + unfold exec. rewrite (keyPressEvent_Right w rc) by (assumption || lia).
      rewrite Hs. simpl. apply setSelected_in_range. lia.
    + unfold exec. rewrite (keyPressEvent_Left w rc) by (assumption || lia).
      rewrite Hs. simpl. apply setSelected_in_range. lia.
  - intros Hs. split.
    + unfold exec. rewrite (keyPressEvent_Right w rc) by (assumption || lia).
      replace (selected w =? -1) with false by (symmetry; apply Z.eqb_neq; lia).
      destruct (Z.ltb_spec (selected w) (count w - 1)).
      * replace (Z.min (selected w + 1) (count w - 1)) with (selected w + 1)
          by lia.
        apply setSelected_in_range. lia.
      * replace (Z.min (selected w + 1) (count w - 1)) with (selected w)
          by lia.
        apply setSelected_in_range. lia.
    + unfold exec. rewrite (keyPressEvent_Left w rc) by (assumption || lia).
      replace (selected w =? -1) with false by (symmetry; apply Z.eqb_neq; lia).
      destruct (Z.ltb_spec 0 (selected w)).
      * replace (Z.max (selected w - 1) 0) with (selected w - 1) by lia.
        apply setSelected_in_range. lia.
      * replace (Z.max (selected w - 1) 0) with (selected w) by lia.
        apply setSelected_in_range. lia.
  - intros Hc Hs Hro. unfold exec, keyPressEvent.
    unfold bind at 1, get at 1.
    replace (count w =? 0) with false by (symmetry; apply Z.eqb_neq; lia).
    unfold bind at 1, ret at 1. unfold bind at 1, lift at 1. rewrite Hrc.
    rewrite Hs, Hro. simpl negb. simpl andb. cbv iota.
    destruct (palette_eraseColor_run w 0 ltac:(lia))
      as (w1 & R & P1 & S1 & _ & _).
    change (negb (0 =? -1) && negb false) with true. cbv iota.
    unfold bind at 1. rewrite R. unfold bind at 1, get at 1.
    assert (count w1 = 0) as Hc1.
    { unfold count. rewrite P1. fold (count w).
      rewrite count_eraseColor; unfold count in *; lia. }
    fold (count w1). rewrite Hc1. simpl.
    destruct (setSelected_run w1 (-1)) as (w' & R' & S' & P' & _).
    rewrite R'. exists w'. simpl. split; [reflexivity|].
    split; [exact S'|]. split; [congruence|].
    unfold count. rewrite P'. exact Hc1.
Qed.

Lemma keyPressEvent_left_right_backspace_witness :
  (exists w', exec (keyPressEvent Key_Right false) five_swatch = Some w'
              /\ selected w' = 0 /\ palette w' = palette five_swatch)
  /\ (exists w', exec (keyPressEvent Key_Right false)
                   (with_selected 4 five_swatch) = Some w'
                 /\ selected w' = Z.min (4 + 1) (5 - 1)
                 /\ palette w' = palette five_swatch)
  /\ (exists w', exec (keyPressEvent Key_Backspace false) one_swatch = Some w'
                 /\ selected w' = -1
                 /\ palette w' =
                    ColorPalette.eraseColor (palette one_swatch) 0
                 /\ count w' = 0).
Proof.
  split; [|split].
  - apply (proj1 (proj1 (keyPressEvent_left_right_backspace
                    five_swatch (mkQSize 5 1) false eq_refl)
                  ltac:(reflexivity) eq_refl)).
  - apply (proj1 (proj1 (proj2 (keyPressEvent_left_right_backspace
                    (with_selected 4 five_swatch) (mkQSize 5 1) false eq_refl))
                  ltac:(vm_compute; split; [discriminate|reflexivity]))).
  - apply (proj2 (proj2 (keyPressEvent_left_right_backspace
                    one_swatch (mkQSize 1 1) false eq_refl))
             eq_refl eq_refl eq_refl).
Defined.

(** ** Delete *)

Lemma setSelected_recorded (w : Swatch) (s : Z) (r : unit * Swatch) :
  setSelected s w = Some r -> In (CallSetSelected s, count w) (calls (snd r)).
Proof.
  unfold setSelected. run.
  repeat match goal with
         | |- context [if ?c then _ else _] => destruct c; simpl
         end; intros H; inversion H; subst r; simpl; tauto.
Qed.

Lemma extends_In (w w' : Swatch) (c : call * Z) :
  extends w w' -> In c (calls w) -> In c (calls w').
Proof.
  intros (n & E & _) H. rewrite E. apply in_or_app. now right.
Qed.

(** C10, as stated, fails: Delete on the middle one of three entries ends
    with index 1 selected, not with no selection, and after the listener of
    the removal has cleared the selection the handler calls [setSelected]
    once more, with index 1. *)
Lemma keyPressEvent_Delete_counterexample :
  exists w',
    exec (keyPressEvent Key_Delete false) three_swatch = Some w'
    /\ selected w' = 1 /\ selected w' <> -1
    /\ map fst (firstn 6 (skipn 1 (calls w'))) =
       [PaletteColorAt 1; EmitSelectedChanged 1; CallSetSelected 1;
        EmitSelectedChanged (-1); CallSetSelected (-1); PaletteEraseColor 1].
Proof.
  eexists. split; [reflexivity|]. split; [reflexivity|].
  split; [discriminate|reflexivity].
Qed.

(** C10 (amended): when Delete is pressed with a valid selection on a
    palette that may be modified (and a defined layout), the selected entry
    is removed, the listener of the removal clears the selection, and the
    handler then calls [setSelected] with min(selected, count - 1) taken
    over the shrunk palette: the selection ends at the entry that followed
    the removed one, at the new last entry when the last one was removed,
    and at none only when the palette has become empty. *)
Theorem keyPressEvent_Delete_reselects (w : Swatch) (rc : QSize) (ctrl : bool) :
  rowcols w = Some rc -> 0 <= selected w < count w -> readonly w = false ->
  exists w',
    exec (keyPressEvent Key_Delete ctrl) w = Some w'
    /\ palette w' = ColorPalette.eraseColor (palette w) (selected w)
    /\ count w' = count w - 1
    /\ selected w' =
       (if count w =? 1 then -1 else Z.min (selected w) (count w - 2))
    /\ In (PaletteEraseColor (selected w), count w) (calls w')
    /\ In (CallSetSelected (-1), count w - 1) (calls w')
    /\ In (CallSetSelected (Z.min (selected w) (count w - 2)), count w - 1)
          (calls w').
Proof.
  intros Hrc Hs Hro. unfold exec, keyPressEvent.
  unfold bind at 1, get at 1.
  replace (count w =? 0) with false by (symmetry; apply Z.eqb_neq; lia).
  unfold bind at 1, ret at 1. unfold bind at 1, lift at 1. rewrite Hrc.
  cbv iota. unfold removeSelected. unfold bind at 1, get at 1.
  rewrite Hro.
  replace (selected w =? -1) with false by (symmetry; apply Z.eqb_neq; lia).
  change (negb false && negb false) with true. cbv iota.
  unfold bind at 1.
  assert (exists w1,
            palette_eraseColor (selected w) w = Some (tt, w1)
            /\ palette w1 = ColorPalette.eraseColor (palette w) (selected w)
            /\ selected w1 = -1
            /\ In (PaletteEraseColor (selected w), count w) (calls w1)
            /\ In (CallSetSelected (-1), count w - 1) (calls w1))
    as (w1 & R & P1 & S1 & I1 & I2).
  { unfold palette_eraseColor, on_colorRemoved. run.
    rewrite Z.eqb_refl. unfold clearSelection.
    match goal with
    | |- context [setSelected (-1) ?u] =>
      destruct (setSelected_run u (-1)) as (w1 & R & S & P & X);
      pose proof (setSelected_recorded u (-1) _ R) as I2
    end.
    rewrite R. exists w1. split; [reflexivity|].
    split; [rewrite P; reflexivity|]. split; [exact S|]. split.
    - eapply extends_In; [exact X|]. simpl. now left.
    - simpl in I2. unfold count in I2 |- *. simpl in I2.
      rewrite count_eraseColor in I2 by exact Hs. exact I2. }
  rewrite R. unfold bind at 1, get at 1.
  assert (count w1 = count w - 1) as Hc1.
  { unfold count. rewrite P1. now apply count_eraseColor. }
  rewrite Hc1.
  replace (count w - 1 - 1) with (count w - 2) by lia.
  destruct (setSelected_run w1 (Z.min (selected w) (count w - 2)))
    as (w' & R' & S' & P' & X').
  pose proof (setSelected_recorded w1 _ _ R') as I3.
  rewrite R'. exists w'. simpl. split; [reflexivity|].
  split; [congruence|]. split; [unfold count; rewrite P'; exact Hc1|].
  split.
  - rewrite S'. unfold normalized. rewrite Hc1.
    destruct (Z.eqb_spec (count w) 1) as [E|E].
    + replace (Z.min (selected w) (count w - 2)) with (-1) by lia.
      reflexivity.
    + destruct (Z.ltb_spec (Z.min (selected w) (count w - 2)) 0); [lia|].
      destruct (Z.leb_spec (count w - 1) (Z.min (selected w) (count w - 2)));
        [lia|reflexivity].
  - split; [eapply extends_In; eassumption|].
    split; [eapply extends_In; eassumption|].
    simpl in I3. rewrite Hc1 in I3. exact I3.
Qed.

Lemma keyPressEvent_Delete_reselects_witness :
  exists w',
    exec (keyPressEvent Key_Delete false) three_swatch = Some w'
    /\ palette w' = ColorPalette.eraseColor (palette three_swatch) 1
    /\ count w' = 3 - 1
    /\ selected w' = 1
    /\ In (PaletteEraseColor 1, 3) (calls w')
    /\ In (CallSetSelected (-1), 3 - 1) (calls w')
    /\ In (CallSetSelected 1, 3 - 1) (calls w').
Proof.
  apply (keyPressEvent_Delete_reselects three_swatch (mkQSize 3 1) false
           eq_refl);
    [vm_compute; split; [discriminate|reflexivity] | reflexivity].
Defined.

(** ** Indices passed to the palette *)




(** ** Colour-model conversions *)

Lemma qBoundQ_unit (v : Q) : in_unit (qBoundQ 0 v 1) = true.
Proof.
  unfold in_unit, qBoundQ. apply andb_true_iff. split; apply Qle_bool_iff.
  - apply Q.le_max_l.
  - apply Q.max_lub; [discriminate|apply Q.le_min_l].
Qed.

Lemma in_unit_spec (v : Q) : in_unit v = true <-> (0 <= v <= 1)%Q.
Proof.
  unfold in_unit. rewrite andb_true_iff, !Qle_bool_iff. tauto.
Qed.

Lemma qRound_channel (v : Q) :
  (0 <= v <= 1)%Q -> 0 <= qRound (v * inject_Z USHRT_MAX) <= USHRT_MAX.
Proof.
  intros [H0 H1]. unfold qRound, USHRT_MAX. split.
  - change 0 with (Qfloor (1 # 2)). apply Qfloor_resp_le.
    change (inject_Z 65535) with (65535 # 1)%Q. lra.
  - change 65535 with (Qfloor ((65535 # 1) + (1 # 2))) at 2.
    apply Qfloor_resp_le. change (inject_Z 65535) with (65535 # 1)%Q. lra.
Qed.

Lemma channelF_unit (n : Z) :
  0 <= n <= USHRT_MAX -> (0 <= inject_Z n / inject_Z USHRT_MAX <= 1)%Q.
Proof.
  intros [H0 H1]. split.
  - apply Qle_shift_div_l; [reflexivity|]. rewrite Qmult_0_l.
    change 0%Q with (inject_Z 0). now rewrite <- Zle_Qle.
  - apply Qle_shift_div_r; [reflexivity|]. rewrite Qmult_1_l.
    now rewrite <- Zle_Qle.
Qed.

(** A colour made from four values of the unit interval is valid and its
    channels, read back, lie in the unit interval. *)
Lemma QColor_fromRgbF_unit (r g b a : Q) :
  in_unit r = true -> in_unit g = true -> in_unit b = true ->
  in_unit a = true ->
  let c := QColor_fromRgbF r g b a in
  c_valid c = true
  /\ (0 <= redF c <= 1)%Q /\ (0 <= greenF c <= 1)%Q /\ (0 <= blueF c <= 1)%Q.
Proof.
  intros Hr Hg Hb Ha. unfold QColor_fromRgbF. rewrite Hr, Hg, Hb, Ha. simpl.
  split; [reflexivity|].
  unfold redF, greenF, blueF. simpl.
  repeat split; apply channelF_unit, qRound_channel; now apply in_unit_spec.
Qed.

(** C7: for hue in [0, 1) and saturation, lightness, chroma, luma and
    alpha in [0, 1], [color_from_hsl] and [color_from_lch] give a valid
    colour whose red, green and blue channels lie in [0, 1]: the offset is
    added to each channel of the sextant colour and the sum is clamped to
    [0, 1] before the colour is built. *)
Theorem color_channels_in_unit
  (color_lumaF : QColor -> Q) (hue c l alpha : Q) :
  (0 <= hue)%Q -> (hue < 1)%Q -> (0 <= c <= 1)%Q -> (0 <= l <= 1)%Q ->
  (0 <= alpha <= 1)%Q ->
  (let col := color_from_hsl hue c l alpha in
   c_valid col = true
   /\ (0 <= redF col <= 1)%Q /\ (0 <= greenF col <= 1)%Q
   /\ (0 <= blueF col <= 1)%Q)
  /\ (let col := color_from_lch color_lumaF hue c l alpha in
      c_valid col = true
      /\ (0 <= redF col <= 1)%Q /\ (0 <= greenF col <= 1)%Q
      /\ (0 <= blueF col <= 1)%Q).
Proof.
  intros Hh0 Hh1 Hc Hl Ha. apply in_unit_spec in Ha.
  split; unfold color_from_hsl, color_from_lch; cbv zeta;
    apply QColor_fromRgbF_unit; try apply qBoundQ_unit; assumption.
Qed.

Lemma color_channels_in_unit_witness :
  (let col := color_from_hsl (1 # 3) 1 (1 # 2) 1 in
   c_valid col = true
   /\ (0 <= redF col <= 1)%Q /\ (0 <= greenF col <= 1)%Q
   /\ (0 <= blueF col <= 1)%Q)
  /\ (let col := color_from_lch luma_601 (1 # 3) 1 (1 # 2) 1 in
      c_valid col = true
      /\ (0 <= redF col <= 1)%Q /\ (0 <= greenF col <= 1)%Q
      /\ (0 <= blueF col <= 1)%Q).
Proof.
  apply (color_channels_in_unit luma_601 (1 # 3) 1 (1 # 2) 1);
    try (split; discriminate); try discriminate; reflexivity.
Defined.

(** ** Degenerate geometry *)

(** C9, as stated, fails: with ten entries in three forced columns on a
    widget of width zero the layout is (3, 4), every cell has width zero,
    and the hit test divides the x coordinate by that width and converts
    the non-finite quotient to [int]: it yields no result, in particular
    not the index -1.  With automatic columns on the same widget the column
    count is zero and the row count is the conversion of count / 0. *)
Lemma degenerate_geometry_counterexample :
  count flat_forced_swatch = 10 /\ width flat_forced_swatch = 0
  /\ rowcols flat_forced_swatch = Some (mkQSize 3 4)
  /\ actualColorSize flat_forced_swatch (mkQSize 3 4)
     = Some (mkQSizeF (0 # 3) (64 # 4))
  /\ indexAt flat_forced_swatch (mkQPoint 5 5) = None
  /\ indexAt flat_forced_swatch (mkQPoint 5 5) <> Some (-1)
  /\ width flat_auto_swatch = 0
  /\ rowcols flat_auto_swatch = None
  /\ indexAt flat_auto_swatch (mkQPoint 5 5) <> Some (-1)
  /\ indexRect flat_auto_swatch 0 <> Some QRectF_null.
Proof.
  repeat split; try reflexivity; discriminate.
Qed.

(** C9 (amended): for an empty palette every geometry query returns an
    explicit empty or none result, whatever the size of the container and
    the other settings: the layout is the null size, which is neither valid
    nor non-empty, the cell rectangle of every index is the null rectangle,
    and the hit test of every point is -1.  The layout computation is also
    defined, for every container size, whenever forcedRows, forcedColumns
    or the column hint of the palette is not zero, and where it is defined
    the cell rectangle of the index -1 is the null rectangle. *)
Theorem degenerate_geometry (w : Swatch) :
  (count w = 0 ->
   rowcols w = Some QSize_null
   /\ QSize_isValid QSize_null = false /\ QSize_isEmpty QSize_null = true
   /\ (forall i, indexRect w i = Some QRectF_null)
   /\ (forall pt, indexAt w pt = Some (-1)))
  /\ (forced_rows w <> 0 \/ forced_columns w <> 0
      \/ ColorPalette.columns (palette w) <> 0 ->
      exists rc, rowcols w = Some rc)
  /\ (forall rc, rowcols w = Some rc -> indexRect w (-1) = Some QRectF_null).
Proof.
  split; [|split].
  - intros Hc. pose proof (rowcols_empty w Hc) as Hrc.
    split; [assumption|]. split; [reflexivity|]. split; [reflexivity|].
    split.
    + intros i. unfold indexRect. rewrite Hrc. simpl.
      now rewrite orb_true_r.
    + intros pt. unfold indexAt. rewrite Hrc. reflexivity.
  - intros H. unfold rowcols.
    destruct (count w =? 0); [eexists; reflexivity|].
    destruct (Z.eqb_spec (forced_rows w) 0) as [E|E]; simpl.
    + destruct (Z.eqb_spec (forced_columns w) 0) as [E1|E1]; simpl.
      * destruct (Z.eqb_spec (ColorPalette.columns (palette w)) 0) as [E2|E2];
          [tauto|].
        rewrite fdiv_nonzero by assumption. eexists; reflexivity.
      * rewrite fdiv_nonzero by assumption. eexists; reflexivity.
    + rewrite fdiv_nonzero by assumption. eexists; reflexivity.
  - intros rc Hrc. unfold indexRect. rewrite Hrc. reflexivity.
Qed.

Lemma degenerate_geometry_witness :
  (rowcols void_swatch = Some QSize_null
   /\ QSize_isValid QSize_null = false /\ QSize_isEmpty QSize_null = true
   /\ (forall i, indexRect void_swatch i = Some QRectF_null)
   /\ (forall pt, indexAt void_swatch pt = Some (-1)))
  /\ exists rc, rowcols flat_forced_swatch = Some rc.
Proof.
  split.
  - apply (proj1 (degenerate_geometry void_swatch)). reflexivity.
  - apply (proj1 (proj2 (degenerate_geometry flat_forced_swatch))).
    right. left. discriminate.
Defined.

(** * Further properties of the grid *)







(** Along one axis: a coordinate inside the span that the rectangle of cell
    [k] covers, with a margin that is not negative, falls into cell [k]. *)
Lemma cell_hits (cw : Q) (k m x : Z) :
  0 <= k -> 0 <= m ->
  (inject_Z k * cw + inject_Z m <= inject_Z x)%Q ->
  (inject_Z x <
   inject_Z k * cw + inject_Z m + (cw - inject_Z (m * 2)))%Q ->
  (0 < cw)%Q /\ to_int (inject_Z x / cw) = k.
Proof.
  intros Hk Hm Hl Hu.
  rewrite inject_Z_mult in Hu. change (inject_Z 2) with 2%Q in Hu.
  assert (0 <= inject_Z m)%Q as Hm'.
  { change 0%Q with (inject_Z 0). now rewrite <- Zle_Qle. }
  set (t := (inject_Z k * cw)%Q) in *.
  assert (0 < cw)%Q as Hcw by (clearbody t; lra).
  split; [assumption|].
  apply to_int_unique; [assumption| |].
  - apply Qle_shift_div_l; [assumption|]. fold t. clearbody t. lra.
  - apply Qlt_shift_div_r; [assumption|].
    rewrite inject_Z_plus. change (inject_Z 1) with 1%Q.
    setoid_replace ((inject_Z k + 1) * cw)%Q with (t + cw)%Q
      by (unfold t; ring).
    clearbody t. lra.
Qed.

(** Every pixel inside the rectangle of a cell hits that cell. *)
Lemma indexAt_inside (w : Swatch) (rc : QSize) (i : Z) (r : QRectF)
  (pt : QPoint) :
  rowcols w = Some rc -> QSize_isEmpty rc = false ->
  0 <= i < count w -> 0 <= margin w ->
  indexRect w i = Some r ->
  (r_x r <= inject_Z (p_x pt))%Q -> (inject_Z (p_x pt) < r_x r + r_w r)%Q ->
  (r_y r <= inject_Z (p_y pt))%Q -> (inject_Z (p_y pt) < r_y r + r_h r)%Q ->
  indexAt w pt = Some i.
Proof.
  intros Hrc Hne Hi Hm Hr Hx0 Hx1 Hy0 Hy1.
  destruct (rowcols_covers w rc Hrc Hne) as (HC & HR & Hcount).
  destruct rc as [C R]. simpl in *.
  assert (Z.rem i C = i mod C) as Hrem by (apply Z.rem_mod_nonneg; lia).
  assert (Z.quot i C = i / C) as Hquot by (apply Z.quot_div_nonneg; lia).
  pose proof (Z.mod_pos_bound i C ltac:(lia)) as Hmod.
  pose proof (Z.div_mod i C ltac:(lia)) as Hdm.
  assert (0 <= i / C) as Hrow0 by (apply Z.div_pos; lia).
  assert (i / C <= R - 1) as Hrow1.
  { assert (i / C < R); [|lia]. apply Z.div_lt_upper_bound; lia. }
  unfold indexRect in Hr. rewrite Hrc in Hr.
  replace (i =? -1) with false in Hr by (symmetry; apply Z.eqb_neq; lia).
  replace (QSize_isValid (mkQSize C R)) with true in Hr
    by (symmetry; unfold QSize_isValid; simpl;
        apply andb_true_iff; split; apply Z.leb_le; lia).
  simpl in Hr.
  unfold indexAt. rewrite Hrc, Hne.
  rewrite actualColorSize_defined in Hr |- * by (simpl; lia).
  simpl s_width in *. simpl s_height in *.
  set (cw := (inject_Z (width w) / inject_Z C)%Q) in *.
  set (ch := (inject_Z (height w) / inject_Z R)%Q) in *.
  unfold indexRect3 in Hr.
  replace (i =? -1) with false in Hr by (symmetry; apply Z.eqb_neq; lia).
  simpl s_width in Hr.
  replace (C =? 0) with false in Hr by (symmetry; apply Z.eqb_neq; lia).
  inversion Hr; subst r. clear Hr. simpl in Hx0, Hx1, Hy0, Hy1.
  rewrite Hrem in Hx0, Hx1. rewrite Hquot in Hy0, Hy1.
  destruct (cell_hits cw (i mod C) (margin w) (p_x pt)
              ltac:(lia) Hm Hx0 Hx1) as (Hcw & Ex).
  destruct (cell_hits ch (i / C) (margin w) (p_y pt)
              ltac:(lia) Hm Hy0 Hy1) as (Hch & Ey).
  simpl sf_width. simpl sf_height.
  rewrite !fdiv_Qpos by assumption. rewrite Ex, Ey.
  unfold qBoundZ.
  replace (Z.max 0 (Z.min (C - 1) (i mod C))) with (i mod C) by lia.
  replace (Z.max 0 (Z.min (R - 1) (i / C))) with (i / C) by lia.
  replace (i / C * C + i mod C) with i by lia.
  replace (count w <=? i) with false by (symmetry; apply Z.leb_gt; lia).
  reflexivity.
Qed.

(** X3: with a margin that is not negative, every pixel inside the
    rectangle of the cell of an index i in [0, count) hits i. *)
Theorem indexAt_inside_cell (w : Swatch) (rc : QSize) (i : Z) (r : QRectF)
  (pt : QPoint) :
  rowcols w = Some rc -> QSize_isEmpty rc = false ->
  0 <= i < count w -> 0 <= margin w ->
  indexRect w i = Some r ->
  (r_x r <= inject_Z (p_x pt))%Q -> (inject_Z (p_x pt) < r_x r + r_w r)%Q ->
  (r_y r <= inject_Z (p_y pt))%Q -> (inject_Z (p_y pt) < r_y r + r_h r)%Q ->
  indexAt w pt = Some i.
Proof. apply indexAt_inside. Qed.

Lemma indexAt_inside_cell_witness :
  indexAt (with_margin 2 grid_3x4) (mkQPoint 29 45) = Some 7.
Proof.
  apply (indexAt_inside_cell (with_margin 2 grid_3x4) (mkQSize 3 4) 7
           (mkQRectF (54 # 3) (136 # 4) (36 # 3) (48 # 4)) (mkQPoint 29 45));
    solve [reflexivity | vm_compute; discriminate | vm_compute; reflexivity
          | vm_compute; split; [discriminate|reflexivity]].
Defined.

(** X4: with a margin that is not negative, the rectangles of two different
    indices in [0, count) have no pixel in common. *)
Theorem indexRect_disjoint (w : Swatch) (rc : QSize) (i j : Z)
  (ri rj : QRectF) (pt : QPoint) :
  rowcols w = Some rc -> QSize_isEmpty rc = false ->
  0 <= i < count w -> 0 <= j < count w -> i <> j -> 0 <= margin w ->
  indexRect w i = Some ri -> indexRect w j = Some rj ->
  (r_x ri <= inject_Z (p_x pt))%Q -> (inject_Z (p_x pt) < r_x ri + r_w ri)%Q ->
  (r_y ri <= inject_Z (p_y pt))%Q -> (inject_Z (p_y pt) < r_y ri + r_h ri)%Q ->
  ~ ((r_x rj <= inject_Z (p_x pt))%Q
     /\ (inject_Z (p_x pt) < r_x rj + r_w rj)%Q
     /\ (r_y rj <= inject_Z (p_y pt))%Q
     /\ (inject_Z (p_y pt) < r_y rj + r_h rj)%Q).
Proof.
  intros Hrc Hne Hi Hj Hij Hm Hri Hrj A1 A2 A3 A4 (B1 & B2 & B3 & B4).
  pose proof (indexAt_inside w rc i ri pt Hrc Hne Hi Hm Hri A1 A2 A3 A4) as Ei.
  pose proof (indexAt_inside w rc j rj pt Hrc Hne Hj Hm Hrj B1 B2 B3 B4) as Ej.
  congruence.
Qed.

Lemma indexRect_disjoint_witness :
  ~ ((128 # 4 <= inject_Z 29)%Q
     /\ (inject_Z 29 < (128 # 4) + (64 # 4))%Q
     /\ (32 # 2 <= inject_Z 20)%Q
     /\ (inject_Z 20 < (32 # 2) + (32 # 2))%Q).
Proof.
  apply (indexRect_disjoint grid_4x2 (mkQSize 4 2) 5 6
           (mkQRectF (64 # 4) (32 # 2) (64 # 4) (32 # 2))
           (mkQRectF (128 # 4) (32 # 2) (64 # 4) (32 # 2)) (mkQPoint 29 20));
    solve [reflexivity | vm_compute; discriminate | vm_compute; reflexivity
          | vm_compute; split; [discriminate|reflexivity]].
Defined.

(** X6: a layout that is not empty has room for every entry and no spare
    line: driven by columns (forcedRows = 0) its last row holds an entry,
    driven by forcedRows its last column does. *)
Theorem rowcols_tight (w : Swatch) (rc : QSize) :
  rowcols w = Some rc -> QSize_isEmpty rc = false ->
  count w <= s_width rc * s_height rc
  /\ (forced_rows w = 0 -> (s_height rc - 1) * s_width rc < count w)
  /\ (forced_rows w <> 0 ->
      s_height rc = forced_rows w
      /\ (s_width rc - 1) * s_height rc < count w).
Proof.
  intros H E.
  destruct (rowcols_covers w rc H E) as (HC & HR & Hcount).
  split; [lia|].
  unfold rowcols in H.
  destruct (count w =? 0) eqn:E0; [apply Z.eqb_eq in E0; lia|].
  destruct (Z.eqb_spec (forced_rows w) 0) as [Er|Er]; simpl in H.
  - split; [|contradiction]. intros _.
    match type of H with
    | match ?c with _ => _ end = _ => destruct c as [columns|]; [|discriminate]
    end.
    destruct (fdiv _ _) eqn:F in H; [|discriminate].
    inversion H; subst rc. simpl in *.
    rewrite fdiv_pos in F by lia. inversion F; subst q.
    rewrite Qceiling_div by lia.
    pose proof (ceil_div_bounds (count w) columns ltac:(lia)). lia.
  - split; [contradiction|]. intros _.
    destruct (fdiv _ _) eqn:F in H; [|discriminate].
    inversion H; subst rc. simpl in *. split; [reflexivity|].
    rewrite fdiv_pos in F by lia. inversion F; subst q.
    rewrite Qceiling_div by lia.
    pose proof (ceil_div_bounds (count w) (forced_rows w) ltac:(lia)). lia.
Qed.

Lemma rowcols_tight_witness :
  count grid_3x4 <= 3 * 4
  /\ (forced_rows grid_3x4 = 0 -> (4 - 1) * 3 < count grid_3x4)
  /\ (forced_rows grid_3x4 <> 0 ->
      4 = forced_rows grid_3x4 /\ (3 - 1) * 4 < count grid_3x4).
Proof.
  apply (rowcols_tight grid_3x4 (mkQSize 3 4)); reflexivity.
Defined.

(** X7: with no forced rows or columns and no column hint, a palette that
    is not empty and a widget at least one nominal cell wide, the layout is
    defined and has as many columns as nominal cells fit across, at most
    one per entry: each cell is at least as wide as the nominal cell. *)
Theorem rowcols_auto (w : Swatch) :
  forced_rows w = 0 -> forced_columns w = 0 ->
  ColorPalette.columns (palette w) = 0 ->
  0 < count w -> 0 < s_width (color_size w) <= width w ->
  exists columns rows,
    rowcols w = Some (mkQSize columns rows)
    /\ columns = Z.min (count w) (width w / s_width (color_size w))
    /\ 1 <= columns <= count w
    /\ columns * s_width (color_size w) <= width w
    /\ (columns < count w -> width w < (columns + 1) * s_width (color_size w))
    /\ (rows - 1) * columns < count w <= rows * columns.
Proof.
  intros Hr Hc Hh Hn Hw.
  set (cs := s_width (color_size w)) in *.
  pose proof (Z.div_mod (width w) cs ltac:(lia)) as Hdm.
  pose proof (Z.mod_pos_bound (width w) cs ltac:(lia)) as Hmod.
  assert (1 <= width w / cs) as Hq by (apply Z.div_le_lower_bound; lia).
  exists (Z.min (count w) (width w / cs)).
  exists (- ((- count w) / Z.min (count w) (width w / cs))).
  pose proof (ceil_div_bounds (count w) (Z.min (count w) (width w / cs))
                ltac:(lia)) as Hb.
  split.
  - unfold rowcols. rewrite Hr, Hc, Hh. fold cs.
    replace (count w =? 0) with false by (symmetry; apply Z.eqb_neq; lia).
    replace (cs =? 0) with false by (symmetry; apply Z.eqb_neq; lia).
    simpl. rewrite Z.quot_div_nonneg by lia.
    rewrite fdiv_pos by lia. rewrite Qceiling_div by lia. reflexivity.
  - split; [reflexivity|]. split; [lia|]. split; [nia|]. split; [nia|lia].
Qed.

Lemma rowcols_auto_witness :
  exists columns rows,
    rowcols (Swatch_init (red_palette 10 0) 70 64)
    = Some (mkQSize columns rows)
    /\ columns = Z.min 10 (70 / 16)
    /\ 1 <= columns <= 10
    /\ columns * 16 <= 70
    /\ (columns < 10 -> 70 < (columns + 1) * 16)
    /\ (rows - 1) * columns < 10 <= rows * columns.
Proof.
  apply (rowcols_auto (Swatch_init (red_palette 10 0) 70 64));
    solve [reflexivity | vm_compute; split; [reflexivity|discriminate]].
Defined.

(** The layout does not depend on the size of the widget when rows or
    columns are forced or the palette hints at a column count. *)
Lemma rowcols_with_size (w : Swatch) (wd ht : Z) :
  forced_rows w <> 0 \/ forced_columns w <> 0
  \/ ColorPalette.columns (palette w) <> 0 ->
  rowcols (with_size wd ht w) = rowcols w.
Proof.
  intros H. unfold rowcols. simpl.
  change (count (with_size wd ht w)) with (count w).
  destruct (count w =? 0); [reflexivity|].
  destruct (Z.eqb_spec (forced_rows w) 0) as [Er|Er]; simpl; [|reflexivity].
  destruct (Z.eqb_spec (forced_columns w) 0) as [Ec|Ec]; simpl; [|reflexivity].
  destruct (Z.eqb_spec (ColorPalette.columns (palette w)) 0) as [Eh|Eh];
    [tauto|reflexivity].
Qed.

(** X8: when the layout is fixed by forced rows, forced columns or the
    column hint, a widget given the size of its size hint shows every cell
    at exactly the nominal colour size, inside its margin. *)
Theorem sizeHint_cell_size (w : Swatch) (rc : QSize) (i : Z) :
  rowcols w = Some rc -> QSize_isEmpty rc = false ->
  QSize_isValid (color_size w) = true ->
  forced_rows w <> 0 \/ forced_columns w <> 0
  \/ ColorPalette.columns (palette w) <> 0 ->
  0 <= i < count w ->
  exists hint r,
    sizeHint w = Some hint
    /\ s_width hint = (s_width (color_size w) + margin w * 2) * s_width rc
    /\ s_height hint = (s_height (color_size w) + margin w * 2) * s_height rc
    /\ indexRect (with_size (s_width hint) (s_height hint) w) i = Some r
    /\ (r_w r == inject_Z (s_width (color_size w)))%Q
    /\ (r_h r == inject_Z (s_height (color_size w)))%Q.
Proof.
  intros Hrc Hne Hcs Hfix Hi.
  destruct (rowcols_covers w rc Hrc Hne) as (HC & HR & _).
  destruct rc as [C R]. simpl in *.
  unfold sizeHint. rewrite Hrc, Hcs.
  replace (QSize_isValid (mkQSize C R)) with true
    by (symmetry; unfold QSize_isValid; simpl;
        apply andb_true_iff; split; apply Z.leb_le; lia).
  simpl. eexists. eexists. split; [reflexivity|]. simpl.
  split; [reflexivity|]. split; [reflexivity|].
  unfold indexRect. rewrite rowcols_with_size by assumption. rewrite Hrc.
  replace (i =? -1) with false by (symmetry; apply Z.eqb_neq; lia).
  replace (QSize_isValid (mkQSize C R)) with true
    by (symmetry; unfold QSize_isValid; simpl;
        apply andb_true_iff; split; apply Z.leb_le; lia).
  simpl orb. cbv iota.
  rewrite actualColorSize_defined by (simpl; lia).
  unfold indexRect3.
  replace (i =? -1) with false by (symmetry; apply Z.eqb_neq; lia).
  simpl s_width. simpl s_height.
  replace (C =? 0) with false by (symmetry; apply Z.eqb_neq; lia).
  split; [reflexivity|]. simpl.
  assert (~ inject_Z C == 0)%Q as HC0.
  { intros E. unfold Qeq in E. simpl in E. lia. }
  assert (~ inject_Z R == 0)%Q as HR0.
  { intros E. unfold Qeq in E. simpl in E. lia. }
  rewrite !inject_Z_mult, !inject_Z_plus, !inject_Z_mult.
  split; field; assumption.
Qed.

Lemma sizeHint_cell_size_witness :
  exists hint r,
    sizeHint (with_margin 2 grid_3x4) = Some hint
    /\ s_width hint = (16 + 2 * 2) * 3
    /\ s_height hint = (16 + 2 * 2) * 4
    /\ indexRect (with_size (s_width hint) (s_height hint)
                    (with_margin 2 grid_3x4)) 7 = Some r
    /\ (r_w r == inject_Z 16)%Q
    /\ (r_h r == inject_Z 16)%Q.
Proof.
  apply (sizeHint_cell_size (with_margin 2 grid_3x4) (mkQSize 3 4) 7);
    solve [reflexivity | right; left; discriminate
          | vm_compute; split; [discriminate|reflexivity]].
Defined.

(** ** Forced rows and columns *)

(** X9: the two constraints exclude each other.  From a state where at
    most one of them is active and neither is negative, as the initial
    state is, each setter ends in such a state, with its own constraint at
    the value asked for (zero for a value that is not positive); a positive
    value clears the other constraint, and nothing else changes. *)
Theorem setForced_exclusive (w : Swatch) (n : Z) :
  forced_ok w ->
  (exists w',
     exec (setForcedColumns n) w = Some w'
     /\ forced_ok w' /\ forced_columns w' = Z.max n 0
     /\ (0 < n -> forced_rows w' = 0)
     /\ palette w' = palette w /\ selected w' = selected w)
  /\ (exists w',
        exec (setForcedRows n) w = Some w'
        /\ forced_ok w' /\ forced_rows w' = Z.max n 0
        /\ (0 < n -> forced_columns w' = 0)
        /\ palette w' = palette w /\ selected w' = selected w).
Proof.
  intros (Hr & Hc & Hx). unfold forced_ok.
  split; unfold exec, setForcedColumns, setForcedRows; run.
  - destruct (Z.leb_spec n 0) as [L|L].
    + destruct (Z.eqb_spec 0 (forced_columns w)) as [E|E]; simpl;
        eexists; (split; [reflexivity|]); simpl; repeat split; lia.
    + destruct (Z.eqb_spec n (forced_columns w)) as [E|E]; simpl;
        eexists; (split; [reflexivity|]); simpl; repeat split; lia.
  - destruct (Z.leb_spec n 0) as [L|L].
    + destruct (Z.eqb_spec 0 (forced_rows w)) as [E|E]; simpl;
        eexists; (split; [reflexivity|]); simpl; repeat split; lia.
    + destruct (Z.eqb_spec n (forced_rows w)) as [E|E]; simpl;
        eexists; (split; [reflexivity|]); simpl; repeat split; lia.
Qed.

Lemma setForced_exclusive_witness :
  exists w',
    exec (setForcedRows 2) grid_3x4 = Some w'
    /\ forced_ok w' /\ forced_rows w' = Z.max 2 0
    /\ (0 < 2 -> forced_columns w' = 0)
    /\ palette w' = palette grid_3x4 /\ selected w' = selected grid_3x4.
Proof.
  apply (proj2 (setForced_exclusive grid_3x4 2
                  ltac:(vm_compute; repeat split;
                        solve [discriminate | left; reflexivity]))).
Defined.

(** X10: the constraint set last decides the layout.  On a palette that is
    not empty, from a state where at most one constraint is active, setting
    n > 0 forced columns gives the layout (n, ceil(count / n)) and setting
    n > 0 forced rows gives (ceil(count / n), n), whatever was forced
    before. *)
Theorem setForced_then_rowcols (w : Swatch) (n : Z) :
  forced_ok w -> 0 < count w -> 0 < n ->
  (exists w',
     exec (setForcedColumns n) w = Some w'
     /\ rowcols w' = Some (mkQSize n (- ((- count w) / n))))
  /\ (exists w',
        exec (setForcedRows n) w = Some w'
        /\ rowcols w' = Some (mkQSize (- ((- count w) / n)) n)).
Proof.
  intros (Hr & Hc & Hx) Hn Hp.
  split; unfold exec, setForcedColumns, setForcedRows; run;
    (destruct (Z.leb_spec n 0) as [L|_]; [lia|]).
  - destruct (Z.eqb_spec n (forced_columns w)) as [E|E]; simpl;
      eexists; (split; [reflexivity|]).
    + rewrite rowcols_forced_columns; try lia. now rewrite <- E.
    + rewrite rowcols_forced_columns; simpl;
        change (count (with_forced 0 n w)) with (count w);
        solve [reflexivity | lia].
  - destruct (Z.eqb_spec n (forced_rows w)) as [E|E]; simpl;
      eexists; (split; [reflexivity|]).
    + rewrite rowcols_forced_rows; try lia. now rewrite <- E.
    + rewrite rowcols_forced_rows; simpl;
        change (count (with_forced n 0 w)) with (count w);
        solve [reflexivity | lia].
Qed.

Lemma setForced_then_rowcols_witness :
  exists w',
    exec (setForcedRows 4) grid_3x4 = Some w'
    /\ rowcols w' = Some (mkQSize (- ((- count grid_3x4) / 4)) 4).
Proof.
  apply (proj2 (setForced_then_rowcols grid_3x4 4
                  ltac:(vm_compute; repeat split;
                        solve [discriminate | left; reflexivity])
                  ltac:(reflexivity) ltac:(reflexivity))).
Defined.

(** ** Further keys *)

(** Reduces a key press on a palette that is not empty, with a defined
    layout, to the branch of its key. *)
Ltac key_branch Hrc :=
  unfold exec, keyPressEvent; unfold bind at 1, get at 1;
  match goal with
  | |- context [count ?w =? 0] =>
    replace (count w =? 0) with false by (symmetry; apply Z.eqb_neq; lia)
  end;
  unfold bind at 1, ret at 1; unfold bind at 1, lift at 1; rewrite Hrc;
  cbv iota.

(** Reduces the remainder by a column count that is not zero. *)
Ltac key_rem :=
  unfold bind at 1, rem;
  match goal with
  | |- context [?c =? 0] =>
    replace (c =? 0) with false by (symmetry; apply Z.eqb_neq; simpl; lia)
  end;
  unfold ret at 1.

(** X11: Up and Down move by one row and never leave the palette: with a
    selection and a layout that is not empty, Up goes to selected - columns
    when that is not negative, Down to selected + columns when that is
    below count, and otherwise each leaves the selection where it is; the
    column of the selection and the palette stay the same. *)
Theorem keyPressEvent_up_down (w : Swatch) (rc : QSize) (ctrl : bool) :
  rowcols w = Some rc -> QSize_isEmpty rc = false ->
  0 <= selected w < count w ->
  (exists w',
     exec (keyPressEvent Key_Up ctrl) w = Some w'
     /\ selected w' = (if s_width rc <=? selected w
                       then selected w - s_width rc else selected w)
     /\ 0 <= selected w' < count w'
     /\ selected w' mod s_width rc = selected w mod s_width rc
     /\ palette w' = palette w)
  /\ (exists w',
        exec (keyPressEvent Key_Down ctrl) w = Some w'
        /\ selected w' = (if selected w + s_width rc <? count w
                          then selected w + s_width rc else selected w)
        /\ 0 <= selected w' < count w'
        /\ selected w' mod s_width rc = selected w mod s_width rc
        /\ palette w' = palette w).
Proof.
  intros Hrc Hne Hs.
  destruct (rowcols_covers w rc Hrc Hne) as (HC & HR & _).
  replace (selected w =? -1) with false by (symmetry; apply Z.eqb_neq; lia).
  split.
  - key_branch Hrc.
    replace (selected w =? -1) with false by (symmetry; apply Z.eqb_neq; lia).
    destruct (Z.leb_spec (s_width rc) (selected w)) as [L|L].
    + destruct (setSelected_in_range w (selected w - s_width rc) ltac:(lia))
        as (w' & R & S & P).
      exists w'. split; [exact R|]. unfold count. rewrite S, P.
      split; [reflexivity|]. split; [exact (ltac:(unfold count in *; lia))|].
      split; [|reflexivity].
      replace (selected w - s_width rc)
        with (selected w + (-1) * s_width rc) by lia.
      apply Z.mod_add. lia.
    + destruct (setSelected_in_range w (selected w) Hs) as (w' & R & S & P).
      exists w'. split; [exact R|]. unfold count. rewrite S, P.
      split; [reflexivity|]. split; [exact (ltac:(unfold count in *; lia))|].
      split; reflexivity.
  - key_branch Hrc.
    replace (selected w =? -1) with false by (symmetry; apply Z.eqb_neq; lia).
    replace (selected w <? count w - s_width rc)
      with (selected w + s_width rc <? count w)
      by (destruct (Z.ltb_spec (selected w + s_width rc) (count w));
          destruct (Z.ltb_spec (selected w) (count w - s_width rc)); lia).
    destruct (Z.ltb_spec (selected w + s_width rc) (count w)) as [L|L].
    + destruct (setSelected_in_range w (selected w + s_width rc) ltac:(lia))
        as (w' & R & S & P).
      exists w'. split; [exact R|]. unfold count. rewrite S, P.
      split; [reflexivity|]. split; [exact (ltac:(unfold count in *; lia))|].
      split; [|reflexivity].
      replace (selected w + s_width rc)
        with (selected w + 1 * s_width rc) by lia.
      apply Z.mod_add. lia.
    + destruct (setSelected_in_range w (selected w) Hs) as (w' & R & S & P).
      exists w'. split; [exact R|]. unfold count. rewrite S, P.
      split; [reflexivity|]. split; [exact (ltac:(unfold count in *; lia))|].
      split; reflexivity.
Qed.

Lemma keyPressEvent_up_down_witness :
  exists w',
    exec (keyPressEvent Key_Down false) (with_selected 7 grid_3x4) = Some w'
    /\ selected w' = (if 7 + 3 <? 10 then 7 + 3 else 7)
    /\ 0 <= selected w' < count w'
    /\ selected w' mod 3 = 7 mod 3
    /\ palette w' = palette grid_3x4.
Proof.
  apply (proj2 (keyPressEvent_up_down (with_selected 7 grid_3x4)
                  (mkQSize 3 4) false eq_refl eq_refl
                  ltac:(vm_compute; split; [discriminate|reflexivity]))).
Defined.

(** The selection after [setSelected], whatever the argument. *)
Lemma setSelected_exec (w : Swatch) (s : Z) :
  exists w',
    exec (setSelected s) w = Some w'
    /\ selected w' = normalized w s /\ palette w' = palette w.
Proof.
  destruct (setSelected_run w s) as (w' & R & S & P & _).
  exists w'. unfold exec. rewrite R. now repeat split.
Qed.

(** X12: with a selection and a layout that is not empty, Home goes to the
    first entry with the control modifier and to the first cell of the row
    of the selection without it; End goes to the last entry with the
    modifier, and without it to the last cell of the row of the selection
    when that cell holds an entry: on an incomplete last row it clears the
    selection. *)
Theorem keyPressEvent_home_end (w : Swatch) (rc : QSize) :
  rowcols w = Some rc -> QSize_isEmpty rc = false ->
  0 <= selected w < count w ->
  let row_start := selected w - selected w mod s_width rc in
  (exists w', exec (keyPressEvent Key_Home true) w = Some w'
              /\ selected w' = 0 /\ palette w' = palette w)
  /\ (exists w', exec (keyPressEvent Key_Home false) w = Some w'
                 /\ selected w' = row_start /\ 0 <= row_start <= selected w
                 /\ palette w' = palette w)
  /\ (exists w', exec (keyPressEvent Key_End true) w = Some w'
                 /\ selected w' = count w - 1 /\ palette w' = palette w)
  /\ (exists w', exec (keyPressEvent Key_End false) w = Some w'
                 /\ selected w' =
                    (if row_start + s_width rc - 1 <? count w
                     then row_start + s_width rc - 1 else -1)
                 /\ palette w' = palette w).
Proof.
  intros Hrc Hne Hs row_start.
  destruct (rowcols_covers w rc Hrc Hne) as (HC & HR & _).
  assert (Z.rem (selected w) (s_width rc) = selected w mod s_width rc) as Hrem
    by (apply Z.rem_mod_nonneg; lia).
  pose proof (Z.mod_pos_bound (selected w) (s_width rc) ltac:(lia)) as Hmod.
  pose proof (Z.mod_le (selected w) (s_width rc) ltac:(lia) ltac:(lia)) as Hle.
  split; [|split; [|split]].
  - key_branch Hrc. apply setSelected_in_range. lia.
  - key_branch Hrc. key_rem. rewrite Hrem. fold row_start.
    destruct (setSelected_in_range w row_start ltac:(unfold row_start; lia))
      as (w' & R & S & P).
    exists w'. split; [exact R|]. split; [exact S|].
    split; [unfold row_start; lia|exact P].
  - key_branch Hrc. apply setSelected_in_range. lia.
  - key_branch Hrc. key_rem. rewrite Hrem.
    replace (selected w + (s_width rc - selected w mod s_width rc - 1))
      with (row_start + s_width rc - 1) by (unfold row_start; lia).
    destruct (setSelected_exec w (row_start + s_width rc - 1))
      as (w' & R & S & P).
    exists w'. split; [exact R|]. split; [|exact P].
    rewrite S. unfold normalized.
    assert (0 <= row_start + s_width rc - 1) by (unfold row_start; lia).
    destruct (Z.ltb_spec (row_start + s_width rc - 1) 0); [lia|].
    destruct (Z.leb_spec (count w) (row_start + s_width rc - 1));
      destruct (Z.ltb_spec (row_start + s_width rc - 1) (count w));
      simpl; lia.
Qed.

Lemma keyPressEvent_home_end_witness :
  exists w', exec (keyPressEvent Key_End false) (with_selected 9 grid_3x4)
             = Some w'
             /\ selected w' = -1 /\ palette w' = palette grid_3x4.
Proof.
  apply (proj2 (proj2 (proj2
    (keyPressEvent_home_end (with_selected 9 grid_3x4) (mkQSize 3 4)
       eq_refl eq_refl
       ltac:(vm_compute; split; [discriminate|reflexivity]))))).
Defined.

(** X13: with a selection and a layout that is not empty, PageUp selects
    the cell of the first row in the column of the selection; when the
    layout is driven by columns (forcedRows = 0), PageDown selects the
    lowest entry of that column. *)
Theorem keyPressEvent_page (w : Swatch) (rc : QSize) (ctrl : bool) :
  rowcols w = Some rc -> QSize_isEmpty rc = false ->
  0 <= selected w < count w ->
  (exists w', exec (keyPressEvent Key_PageUp ctrl) w = Some w'
              /\ selected w' = selected w mod s_width rc
              /\ 0 <= selected w' < s_width rc
              /\ palette w' = palette w)
  /\ (forced_rows w = 0 ->
      exists w', exec (keyPressEvent Key_PageDown ctrl) w = Some w'
                 /\ 0 <= selected w' < count w
                 /\ selected w' mod s_width rc = selected w mod s_width rc
                 /\ count w <= selected w' + s_width rc
                 /\ palette w' = palette w).
Proof.
  intros Hrc Hne Hs.
  destruct (rowcols_covers w rc Hrc Hne) as (HC & HR & Hcov).
  assert (Z.rem (selected w) (s_width rc) = selected w mod s_width rc) as Hrem
    by (apply Z.rem_mod_nonneg; lia).
  pose proof (Z.mod_pos_bound (selected w) (s_width rc) ltac:(lia)) as Hmod.
  pose proof (Z.mod_le (selected w) (s_width rc) ltac:(lia) ltac:(lia)) as Hle.
  split.
  - key_branch Hrc.
    replace (selected w =? -1) with false by (symmetry; apply Z.eqb_neq; lia).
    key_rem. rewrite Hrem.
    destruct (setSelected_in_range w (selected w mod s_width rc) ltac:(lia))
      as (w' & R & S & P).
    exists w'. split; [exact R|]. split; [exact S|].
    split; [rewrite S; lia|exact P].
  - intros Hfr.
    destruct (rowcols_tight w rc Hrc Hne) as (_ & Ht & _).
    specialize (Ht Hfr).
    key_branch Hrc.
    replace (selected w =? -1) with false by (symmetry; apply Z.eqb_neq; lia).
    key_rem. rewrite Hrem.
    set (col := selected w mod s_width rc) in *.
    set (s := s_width rc * (s_height rc - 1) + col).
    assert (0 <= (if count w <=? s then s - s_width rc else s) < count w
            /\ count w <= (if count w <=? s then s - s_width rc else s)
                          + s_width rc) as (Hr & Hlow).
    { assert (s = s_width rc * s_height rc - s_width rc + col) as Es
        by (unfold s; ring).
      assert ((s_height rc - 1) * s_width rc
              = s_width rc * s_height rc - s_width rc) as Et by ring.
      rewrite Et in Ht.
      assert (s_height rc = 1 \/ 2 * s_width rc <= s_width rc * s_height rc)
        as [E1|E2] by nia.
      - rewrite E1 in *. rewrite Z.mul_1_r in *.
        destruct (Z.leb_spec (count w) s); lia.
      - destruct (Z.leb_spec (count w) s); lia. }
    assert ((if count w <=? s then s - s_width rc else s) mod s_width rc
            = col) as Hcol.
    { destruct (Z.leb_spec (count w) s); unfold s.
      - replace (s_width rc * (s_height rc - 1) + col - s_width rc)
          with (col + (s_height rc - 2) * s_width rc) by lia.
        rewrite Z.mod_add by lia. unfold col. apply Z.mod_mod. lia.
      - replace (s_width rc * (s_height rc - 1) + col)
          with (col + (s_height rc - 1) * s_width rc) by lia.
        rewrite Z.mod_add by lia. unfold col. apply Z.mod_mod. lia. }
    destruct (setSelected_in_range w _ Hr) as (w' & R & S & P).
    exists w'. split; [exact R|]. rewrite S.
    split; [exact Hr|]. split; [exact Hcol|]. split; [exact Hlow|exact P].
Qed.

Lemma keyPressEvent_page_witness :
  exists w', exec (keyPressEvent Key_PageDown false)
               (with_selected 1 grid_3x4) = Some w'
             /\ 0 <= selected w' < count grid_3x4
             /\ selected w' mod 3 = 1 mod 3
             /\ count grid_3x4 <= selected w' + 3
             /\ palette w' = palette grid_3x4.
Proof.
  apply (proj2 (keyPressEvent_page (with_selected 1 grid_3x4) (mkQSize 3 4)
                  false eq_refl eq_refl
                  ltac:(vm_compute; split; [discriminate|reflexivity]))).
  reflexivity.
Defined.

Lemma exec_Some {A} (m : M A) (w w' : Swatch) :
  exec m w = Some w' -> exists a, m w = Some (a, w').
Proof.
  unfold exec. destruct (m w) as [[a u]|]; [|discriminate].
  intros H. inversion H; subst. now exists a.
Qed.

(** The keys that navigate leave the palette alone. *)
Ltac palette_kept :=
  match goal with
  | H : setSelected _ _ = Some _ |- _ =>
    apply setSelected_inv in H; destruct H as (_ & _ & ? & _); simpl in *;
    congruence
  end.

Lemma keyPressEvent_keeps_palette (w : Swatch) (key : Key) (ctrl : bool)
  (r : unit * Swatch) :
  readonly w = true \/ selected w = -1
  \/ (key <> Key_Delete /\ key <> Key_Backspace) ->
  keyPressEvent key ctrl w = Some r -> palette (snd r) = palette w.
Proof.
  intros Hk H. unfold keyPressEvent in H.
  unfold bind at 1, get at 1 in H.
  apply bind_Some in H. destruct H as (u & w0 & H0 & H).
  assert (readonly w0 = readonly w /\ selected w0 = selected w
          /\ palette w0 = palette w) as (Hro & Hsel & Hpal).
  { destruct (count w =? 0); inversion H0; subst; repeat split. }
  clear H0.
  apply bind_Some in H. destruct H as (rc & w1 & H1 & H).
  unfold lift in H1. destruct (rowcols w); [|discriminate].
  inversion H1; subst q w1. clear H1.
  assert (negb (selected w =? -1) && negb (readonly w) = true ->
          key <> Key_Delete /\ key <> Key_Backspace) as Hguard.
  { intros G. apply andb_true_iff in G. destruct G as [G1 G2].
    apply negb_true_iff in G1, G2. apply Z.eqb_neq in G1.
    destruct Hk as [?|[?|?]]; [congruence|contradiction|assumption]. }
  destruct key.
  - palette_kept.
  - palette_kept.
  - palette_kept.
  - palette_kept.
  - destruct ctrl; [palette_kept|].
    apply bind_Some in H. destruct H as (m & w1 & H1 & H).
    unfold rem in H1. destruct (_ =? 0); [discriminate|].
    inversion H1; subst. palette_kept.
  - destruct ctrl; [palette_kept|].
    apply bind_Some in H. destruct H as (m & w1 & H1 & H).
    unfold rem in H1. destruct (_ =? 0); [discriminate|].
    inversion H1; subst. palette_kept.
  - unfold removeSelected in H. unfold bind at 1, get at 1 in H.
    rewrite Hsel, Hro in H.
    destruct (negb (selected w =? -1) && negb (readonly w)) eqn:G.
    + destruct (Hguard eq_refl) as [? _]. congruence.
    + inversion H; subst r. exact Hpal.
  - destruct (negb (selected w =? -1) && negb (readonly w)) eqn:G.
    + destruct (Hguard eq_refl) as [_ ?]. congruence.
    + palette_kept.
  - destruct (selected w =? -1); [palette_kept|].
    apply bind_Some in H. destruct H as (m & w1 & H1 & H).
    unfold rem in H1. destruct (_ =? 0); [discriminate|].
    inversion H1; subst. palette_kept.
  - destruct (selected w =? -1); [palette_kept|].
    apply bind_Some in H. destruct H as (m & w1 & H1 & H).
    unfold rem in H1. destruct (_ =? 0); [discriminate|].
    inversion H1; subst. palette_kept.
  - unfold record, modify in H. inversion H; subst r. exact Hpal.
Qed.

(** X14: a key press changes the palette only by Delete or Backspace on a
    selection of a widget that is not read-only: in read-only mode, without
    a selection, and for every other key the palette stays as it is. *)
Theorem keyPressEvent_palette_unchanged (w w' : Swatch) (key : Key)
  (ctrl : bool) :
  readonly w = true \/ selected w = -1
  \/ (key <> Key_Delete /\ key <> Key_Backspace) ->
  exec (keyPressEvent key ctrl) w = Some w' -> palette w' = palette w.
Proof.
  intros Hk H. apply exec_Some in H. destruct H as (a & H).
  apply (keyPressEvent_keeps_palette w key ctrl (a, w') Hk H).
Qed.

Lemma keyPressEvent_palette_unchanged_witness :
  palette (with_call (CallSetSelected 1) (with_readonly true three_swatch))
  = palette (with_readonly true three_swatch).
Proof.
  apply (keyPressEvent_palette_unchanged (with_readonly true three_swatch)
           (with_call (CallSetSelected 1) (with_readonly true three_swatch))
           Key_Backspace false).
  - left. reflexivity.
  - reflexivity.
Defined.

(** ** Further properties of drop resolution *)

Lemma may_overwrite_value (e : QDropEvent) (w : Swatch) (i : Z)
  (ok : bool) (u : Swatch) :
  may_overwrite e i w = Some (ok, u) ->
  ok = true -> ev_isMoveAction e = true -> ev_sourceIsOwner e = true ->
  QColor_eqb (ColorPalette.colorAt (palette w) i) (emptyColor w) = true.
Proof.
  unfold may_overwrite. intros H Hok Hm Ho. rewrite Hm, Ho in H.
  simpl in H. revert H. run. intros H. inversion H. congruence.
Qed.

(** The three ways a drop is resolved. *)
Lemma dropEvent_cases (w : Swatch) (e : QDropEvent) (r : unit * Swatch) :
  dropEvent e w = Some r ->
  exists i,
    indexAt w (ev_pos e) = Some i
    /\ let index := if i =? -1 then count w else i in
       (drop_index (snd r) = index + 1 /\ drop_overwrite (snd r) = false
        /\ index < count w)
       \/ (drop_index (snd r) = index /\ drop_overwrite (snd r) = false)
       \/ (drop_index (snd r) = index /\ drop_overwrite (snd r) = true
           /\ index < count w
           /\ (ev_isMoveAction e = true -> ev_sourceIsOwner e = true ->
               QColor_eqb (ColorPalette.colorAt (palette w) index)
                 (emptyColor w) = true)).
Proof.
  unfold dropEvent. unfold bind at 1, get at 1. intros H.
  apply bind_Some in H. destruct H as (i & w1 & H1 & H).
  unfold lift in H1. destruct (indexAt w (ev_pos e)) as [i'|] eqn:Hat;
    [|discriminate].
  inversion H1; subst i' w1. clear H1. exists i. split; [reflexivity|].
  cbv zeta. set (index := if i =? -1 then count w else i) in *.
  apply bind_Some in H. destruct H as (rect & w1 & H1 & H).
  unfold lift in H1. destruct (indexRect w index); [|discriminate].
  inversion H1; subst q w1. clear H1.
  set (color := if ev_hasColor e then ev_colorData e
                else if ev_hasText e then ev_textColor e else drop_color w)
    in *.
  assert (forall r' : unit * Swatch,
            modify (with_drop index color false) w = Some r' ->
            drop_index (snd r') = index /\ drop_overwrite (snd r') = false)
    as Hkeep.
  { intros r' Hm. inversion Hm; subst r'. simpl. now split. }
  assert (forall r' : unit * Swatch,
            modify (with_drop (index + 1) color false) w = Some r' ->
            drop_index (snd r') = index + 1
            /\ drop_overwrite (snd r') = false) as Hnext.
  { intros r' Hm. inversion Hm; subst r'. simpl. now split. }
  assert (forall r' : unit * Swatch,
            bind (may_overwrite e index)
                 (fun ok => modify (with_drop index color ok)) w = Some r' ->
            drop_index (snd r') = index
            /\ (drop_overwrite (snd r') = true ->
                ev_isMoveAction e = true -> ev_sourceIsOwner e = true ->
                QColor_eqb (ColorPalette.colorAt (palette w) index)
                  (emptyColor w) = true)) as Hover.
  { intros r' Hb. apply bind_Some in Hb. destruct Hb as (ok & u & Hu & Hb).
    inversion Hb; subst r'. simpl. split; [reflexivity|].
    now apply may_overwrite_value with (u := u). }
  destruct ((index <? count w) && _) eqn:G.
  2:{ right. left. now apply Hkeep. }
  apply andb_true_iff in G. destruct G as [G _]. apply Z.ltb_lt in G.
  assert (forall r' : unit * Swatch,
            bind (may_overwrite e index)
                 (fun ok => modify (with_drop index color ok)) w = Some r' ->
            (drop_index (snd r') = index /\ drop_overwrite (snd r') = false)
            \/ (drop_index (snd r') = index /\ drop_overwrite (snd r') = true
                /\ index < count w
                /\ (ev_isMoveAction e = true -> ev_sourceIsOwner e = true ->
                    QColor_eqb (ColorPalette.colorAt (palette w) index)
                      (emptyColor w) = true))) as Hover'.
  { intros r' Hb. destruct (Hover r' Hb) as (Hi & Hc).
    destruct (drop_overwrite (snd r')) eqn:Eo; [right|left]; auto. }
  destruct (_ || _).
  - destruct (Qle_bool _ _).
    { left. destruct (Hnext r H). auto. }
    destruct (Qlt_bool _ _); right; [now apply Hover'|left; now apply Hkeep].
  - destruct (Qle_bool _ _).
    { left. destruct (Hnext r H). auto. }
    destruct (Qlt_bool _ _); right; [now apply Hover'|left; now apply Hkeep].
Qed.

(** X15: whenever drop resolution returns, the target index lies in
    [0, count], an overwrite targets an entry of the palette (an index below
    count), and neither the palette nor the selection has changed. *)
Theorem dropEvent_target_bounds (w w' : Swatch) (e : QDropEvent) :
  exec (dropEvent e) w = Some w' ->
  0 <= drop_index w' <= count w
  /\ (drop_overwrite w' = true -> drop_index w' < count w)
  /\ palette w' = palette w /\ selected w' = selected w.
Proof.
  intros H. apply exec_Some in H. destruct H as (a & H).
  destruct (dropEvent_inv w e (a, w') H) as ((S & P) & _). simpl in S, P.
  destruct (dropEvent_cases w e (a, w') H) as (i & Hat & Hc). simpl in Hc.
  pose proof (Nat2Z.is_nonneg (length (ColorPalette.colors (palette w))))
    as Hn.
  fold (ColorPalette.count (palette w)) in Hn. fold (count w) in Hn.
  assert (0 <= (if i =? -1 then count w else i) <= count w) as Hi.
  { destruct (indexAt_range w _ i Hat) as [E|E].
    - subst i. simpl. lia.
    - destruct (Z.eqb_spec i (-1)); lia. }
  destruct Hc as [(D & O & L)|[(D & O)|(D & O & L & _)]];
    rewrite D, O; repeat split; try assumption; try lia; try discriminate.
Qed.

Lemma dropEvent_target_bounds_witness :
  exists w',
    exec (dropEvent (drag_at 62 30 false false)) grid_4x2 = Some w'
    /\ 0 <= drop_index w' <= count grid_4x2
    /\ (drop_overwrite w' = true -> drop_index w' < count grid_4x2)
    /\ palette w' = palette grid_4x2 /\ selected w' = selected grid_4x2.
Proof.
  eexists. split; [reflexivity|].
  apply (dropEvent_target_bounds grid_4x2 _ (drag_at 62 30 false false)).
  reflexivity.
Defined.

(** X16: a move that started in this widget never overwrites a colour:
    when the proposed action is a move and the source is the widget itself,
    a drop resolved as overwrite targets a cell that holds the empty
    colour. *)
Theorem dropEvent_move_keeps_colors (w w' : Swatch) (e : QDropEvent) :
  ev_isMoveAction e = true -> ev_sourceIsOwner e = true ->
  exec (dropEvent e) w = Some w' ->
  drop_overwrite w' = true ->
  0 <= drop_index w' < count w
  /\ QColor_eqb (ColorPalette.colorAt (palette w) (drop_index w'))
       (emptyColor w) = true.
Proof.
  intros Hm Ho H Hov. apply exec_Some in H. destruct H as (a & H).
  destruct (dropEvent_cases w e (a, w') H) as (i & Hat & Hc). simpl in Hc.
  assert (0 <= (if i =? -1 then count w else i)) as Hi.
  { destruct (indexAt_range w _ i Hat) as [E|E].
    - subst i. simpl.
      pose proof (Nat2Z.is_nonneg
                    (length (ColorPalette.colors (palette w)))) as Hn.
      exact Hn.
    - destruct (Z.eqb_spec i (-1)); lia. }
  destruct Hc as [(D & O & L)|[(D & O)|(D & O & L & E)]];
    try congruence.
  rewrite D. split; [lia|]. now apply E.
Qed.

Lemma dropEvent_move_keeps_colors_witness :
  exists w',
    exec (dropEvent (drag_at 8 14 true true)) grid_4x2 = Some w'
    /\ 0 <= drop_index w' < count grid_4x2
    /\ QColor_eqb (ColorPalette.colorAt (palette grid_4x2) (drop_index w'))
         (emptyColor grid_4x2) = true.
Proof.
  eexists. split; [reflexivity|].
  apply (dropEvent_move_keeps_colors grid_4x2 _ (drag_at 8 14 true true));
    reflexivity.
Defined.

(** ** Further properties of the selection *)

(** X17: [setSelected] emits [selectedChanged] exactly when the normalized
    index differs from the current selection, and then [colorSelected],
    with the colour the palette holds at the index, exactly when the new
    selection is not none; a second call with the same argument changes
    nothing and emits nothing. *)
Theorem setSelected_signals (w : Swatch) (s : Z) :
  let s' := normalized w s in
  exists w1,
    exec (setSelected s) w = Some w1
    /\ selected w1 = s'
    /\ calls w1 =
       (if s' =? selected w then []
        else (if s' =? -1 then []
              else [(EmitColorSelected (ColorPalette.colorAt (palette w) s'),
                     count w);
                    (PaletteColorAt s', count w)])
             ++ [(EmitSelectedChanged s', count w)])
       ++ (CallSetSelected s, count w) :: calls w
    /\ exec (setSelected s) w1 = Some (with_call (CallSetSelected s) w1).
Proof.
  intros s'.
  assert (forall u, selected u = normalized u s ->
                    exec (setSelected s) u
                    = Some (with_call (CallSetSelected s) u)) as Hsame.
  { intros u Hu. unfold exec, setSelected. run.
    change (count (with_call (CallSetSelected s) u)) with (count u).
    fold (normalized u s). rewrite <- Hu, Z.eqb_refl. reflexivity. }
  unfold exec at 1, setSelected. run.
  change (count (with_call (CallSetSelected s) w)) with (count w).
  fold (normalized w s). fold s'.
  destruct (Z.eqb_spec s' (selected w)) as [E|E]; simpl.
  - eexists. split; [reflexivity|]. simpl.
    split; [congruence|]. split; [reflexivity|].
    apply Hsame. simpl. unfold s' in E. now rewrite <- E.
  - destruct (Z.eqb_spec s' (-1)) as [E1|E1]; simpl;
      eexists; (split; [reflexivity|]); simpl;
      (split; [reflexivity|]); (split; [reflexivity|]);
      apply Hsame; reflexivity.
Qed.

(** X18: a press of the left button on a pixel inside the rectangle of the
    cell of an index i in [0, count), with a margin that is not negative,
    selects i; a press of another button leaves the selection as it is. *)
Theorem mousePressEvent_selects (w : Swatch) (rc : QSize) (i : Z)
  (r : QRectF) (pt : QPoint) :
  rowcols w = Some rc -> QSize_isEmpty rc = false ->
  0 <= i < count w -> 0 <= margin w ->
  indexRect w i = Some r ->
  (r_x r <= inject_Z (p_x pt))%Q -> (inject_Z (p_x pt) < r_x r + r_w r)%Q ->
  (r_y r <= inject_Z (p_y pt))%Q -> (inject_Z (p_y pt) < r_y r + r_h r)%Q ->
  (exists w', exec (mousePressEvent LeftButton pt) w = Some w'
              /\ selected w' = i /\ palette w' = palette w)
  /\ exec (mousePressEvent RightButton pt) w = Some w
  /\ exec (mousePressEvent OtherButton pt) w = Some w.
Proof.
  intros Hrc Hne Hi Hm Hr X0 X1 Y0 Y1.
  pose proof (indexAt_inside w rc i r pt Hrc Hne Hi Hm Hr X0 X1 Y0 Y1) as Hat.
  split; [|split].
  - unfold exec, mousePressEvent. unfold bind at 1, get at 1.
    unfold bind at 1, lift at 1. rewrite Hat.
    apply setSelected_in_range. exact Hi.
  - unfold exec, mousePressEvent. run. rewrite Hat. reflexivity.
  - reflexivity.
Qed.

Lemma mousePressEvent_selects_witness :
  exists w', exec (mousePressEvent LeftButton (mkQPoint 29 45))
               (with_margin 2 grid_3x4) = Some w'
             /\ selected w' = 7
             /\ palette w' = palette (with_margin 2 grid_3x4).
Proof.
  apply (proj1 (mousePressEvent_selects (with_margin 2 grid_3x4)
                  (mkQSize 3 4) 7
                  (mkQRectF (54 # 3) (136 # 4) (36 # 3) (48 # 4))
                  (mkQPoint 29 45) eq_refl eq_refl
                  ltac:(vm_compute; split; [discriminate|reflexivity])
                  ltac:(vm_compute; discriminate) eq_refl
                  ltac:(vm_compute; discriminate) ltac:(reflexivity)
                  ltac:(vm_compute; discriminate) ltac:(reflexivity))).
Defined.

(** X19: on an empty palette with no selection every key press returns,
    is passed on to the key handler of the base widget, and leaves the
    selection none and the palette empty. *)
Theorem keyPressEvent_empty_palette (w : Swatch) (key : Key) (ctrl : bool) :
  count w = 0 -> selected w = -1 ->
  exists w',
    exec (keyPressEvent key ctrl) w = Some w'
    /\ selected w' = -1 /\ palette w' = palette w
    /\ In (BaseKeyPressEvent, 0) (calls w').
Proof.
  intros Hc Hs.
  set (w0 := with_call BaseKeyPressEvent w).
  assert (In (BaseKeyPressEvent, 0) (calls w0)) as Hin.
  { simpl. rewrite Hc. now left. }
  assert (forall s, exists w',
            exec (setSelected s) w0 = Some w'
            /\ selected w' = -1 /\ palette w' = palette w
            /\ In (BaseKeyPressEvent, 0) (calls w')) as Hset.
  { intros s. destruct (setSelected_run w0 s) as (w' & R & S & P & X).
    exists w'. unfold exec. rewrite R. split; [reflexivity|].
    split; [|split; [exact P|eapply extends_In; eassumption]].
    rewrite S. unfold normalized.
    change (count w0) with (count w). rewrite Hc.
    destruct (Z.ltb_spec s 0); [reflexivity|].
    destruct (Z.leb_spec 0 s); [reflexivity|lia]. }
  unfold exec, keyPressEvent. unfold bind at 1, get at 1.
  rewrite Hc. simpl (0 =? 0). cbv iota.
  unfold bind at 1, record at 1, modify at 1. fold w0.
  unfold bind at 1, lift at 1. rewrite (rowcols_empty w Hc).
  rewrite Hs. simpl s_width. simpl s_height.
  change (-1 =? -1) with true. simpl negb. simpl andb.
  destruct key; cbv iota; try apply Hset.
  - destruct ctrl; [apply Hset|]. key_rem. apply Hset.
  - destruct ctrl; [apply Hset|]. key_rem. apply Hset.
  - exists w0. split; [|split; [exact Hs|split; [reflexivity|exact Hin]]].
    unfold removeSelected. run. rewrite Hs. reflexivity.
  - exists (with_call BaseKeyPressEvent w0). split; [reflexivity|].
    split; [exact Hs|]. split; [reflexivity|]. right. exact Hin.
Qed.

Lemma keyPressEvent_empty_palette_witness :
  exists w',
    exec (keyPressEvent Key_End false) void_swatch = Some w'
    /\ selected w' = -1 /\ palette w' = palette void_swatch
    /\ In (BaseKeyPressEvent, 0) (calls w').
Proof.
  apply (keyPressEvent_empty_palette void_swatch Key_End false);
    reflexivity.
Defined.

(** * Further properties of the colour conversions *)

Lemma in_unit_comp (a b : Q) : (a == b)%Q -> in_unit a = in_unit b.
Proof.
  intros E. destruct (in_unit b) eqn:Eb.
  - apply in_unit_spec. apply in_unit_spec in Eb. now rewrite E.
  - destruct (in_unit a) eqn:Ea; [|reflexivity].
    apply in_unit_spec in Ea. rewrite E in Ea. apply in_unit_spec in Ea.
    congruence.
Qed.

Lemma qRound_comp (a b : Q) : (a == b)%Q -> qRound a = qRound b.
Proof. intros E. unfold qRound. apply Qfloor_comp. now rewrite E. Qed.

Lemma qBoundQ_id (v l : Q) :
  (v == l)%Q -> (0 <= l <= 1)%Q -> (qBoundQ 0 v 1 == l)%Q.
Proof.
  intros E [H0 H1]. unfold qBoundQ.
  assert (Qmin 1 v == v)%Q as Hmin by (apply Q.min_r; rewrite E; exact H1).
  rewrite Q.max_r.
  - now rewrite Hmin.
  - rewrite Hmin, E. exact H0.
Qed.

(** A grey of level [l]: the colour built from three channels equal to
    [l] is valid and stores the rounded level in each channel. *)
Lemma QColor_fromRgbF_grey (r g b a l : Q) :
  (r == l)%Q -> (g == l)%Q -> (b == l)%Q ->
  (0 <= l <= 1)%Q -> (0 <= a <= 1)%Q ->
  let c := QColor_fromRgbF r g b a in
  c_valid c = true
  /\ c_red c = qRound (l * inject_Z USHRT_MAX)
  /\ c_green c = qRound (l * inject_Z USHRT_MAX)
  /\ c_blue c = qRound (l * inject_Z USHRT_MAX).
Proof.
  intros Er Eg Eb Hl Ha. unfold QColor_fromRgbF.
  apply in_unit_spec in Hl. apply in_unit_spec in Ha.
  rewrite (in_unit_comp r l Er), (in_unit_comp g l Eg),
    (in_unit_comp b l Eb), Hl, Ha. simpl.
  repeat split; apply qRound_comp;
    [rewrite Er|rewrite Eg|rewrite Eb]; reflexivity.
Qed.

(** With chroma and [x] zero the sextant colour has no red, green or
    blue, whichever branch is taken. *)
Lemma sextant_color_zero (h1 chroma x : Q) :
  (chroma == 0)%Q -> (x == 0)%Q ->
  let c := sextant_color h1 chroma x in
  c_red c = 0 /\ c_green c = 0 /\ c_blue c = 0.
Proof.
  intros Ec Ex.
  assert (forall r g b, (r == 0)%Q -> (g == 0)%Q -> (b == 0)%Q ->
            let c := QColor_fromRgbF r g b 1 in
            c_red c = 0 /\ c_green c = 0 /\ c_blue c = 0) as Hz.
  { intros r g b Er Eg Eb.
    destruct (QColor_fromRgbF_grey r g b 1 0 Er Eg Eb)
      as (_ & R & G & B); try (split; discriminate).
    cbv zeta. rewrite R, G, B. repeat split. }
  assert (0 == 0)%Q as E0 by reflexivity.
  unfold sextant_color.
  repeat match goal with
         | |- context [if ?c then _ else _] => destruct c
         end; try (apply Hz; assumption).
  repeat split.
Qed.

Lemma channelF_zero (n : Z) :
  n = 0 -> (inject_Z n / inject_Z USHRT_MAX == 0)%Q.
Proof. intros E. subst n. reflexivity. Qed.

(** X20: without saturation, or at lightness 0 or 1, [color_from_hsl]
    gives the grey of the lightness for every hue, in or out of range: a
    valid colour whose red, green and blue channels all store the rounded
    lightness. *)
Theorem color_from_hsl_achromatic (hue sat lig alpha : Q) :
  (sat == 0)%Q \/ (lig == 0)%Q \/ (lig == 1)%Q ->
  (0 <= lig <= 1)%Q -> (0 <= alpha <= 1)%Q ->
  let col := color_from_hsl hue sat lig alpha in
  c_valid col = true
  /\ c_red col = qRound (lig * inject_Z USHRT_MAX)
  /\ c_green col = qRound (lig * inject_Z USHRT_MAX)
  /\ c_blue col = qRound (lig * inject_Z USHRT_MAX).
Proof.
  intros Hz Hl Ha. unfold color_from_hsl. cbv zeta.
  set (chroma := ((1 - Qabs (2 * lig - 1)) * sat)%Q).
  assert (chroma == 0)%Q as Ec.
  { unfold chroma. destruct Hz as [E|[E|E]]; rewrite E.
    - ring.
    - setoid_replace (2 * 0 - 1)%Q with (- (1))%Q by ring.
      rewrite Qabs_opp. change (Qabs 1) with 1%Q. ring.
    - setoid_replace (2 * 1 - 1)%Q with 1%Q by ring.
      change (Qabs 1) with 1%Q. ring. }
  set (x := (chroma * (1 - Qabs (fmod2 (hue * 6) - 1)))%Q).
  assert (x == 0)%Q as Ex by (unfold x; rewrite Ec; ring).
  destruct (sextant_color_zero (hue * 6) chroma x Ec Ex) as (R & G & B).
  apply QColor_fromRgbF_grey; try assumption;
    apply qBoundQ_id; try assumption;
    unfold redF, greenF, blueF;
    [rewrite (channelF_zero _ R)|rewrite (channelF_zero _ G)
     |rewrite (channelF_zero _ B)]; rewrite Ec;
    unfold Qdiv; ring.
Qed.

Lemma color_from_hsl_achromatic_witness :
  let col := color_from_hsl (2 # 3) 0 (1 # 4) 1 in
  c_valid col = true
  /\ c_red col = qRound ((1 # 4) * inject_Z USHRT_MAX)
  /\ c_green col = qRound ((1 # 4) * inject_Z USHRT_MAX)
  /\ c_blue col = qRound ((1 # 4) * inject_Z USHRT_MAX).
Proof.
  apply (color_from_hsl_achromatic (2 # 3) 0 (1 # 4) 1);
    solve [left; reflexivity | split; discriminate].
Defined.

(** X21: without chroma, [color_from_lch] gives the grey of the luma for
    every hue, for any luma function that is zero on a colour without red,
    green and blue. *)
Theorem color_from_lch_achromatic
  (color_lumaF : QColor -> Q) (hue chroma luma alpha : Q) :
  (forall c, c_red c = 0 -> c_green c = 0 -> c_blue c = 0 ->
             (color_lumaF c == 0)%Q) ->
  (chroma == 0)%Q -> (0 <= luma <= 1)%Q -> (0 <= alpha <= 1)%Q ->
  let col := color_from_lch color_lumaF hue chroma luma alpha in
  c_valid col = true
  /\ c_red col = qRound (luma * inject_Z USHRT_MAX)
  /\ c_green col = qRound (luma * inject_Z USHRT_MAX)
  /\ c_blue col = qRound (luma * inject_Z USHRT_MAX).
Proof.
  intros Hluma Ec Hl Ha. unfold color_from_lch. cbv zeta.
  set (x := (chroma * (1 - Qabs (fmod2 (hue * 6) - 1)))%Q).
  assert (x == 0)%Q as Ex by (unfold x; rewrite Ec; ring).
  destruct (sextant_color_zero (hue * 6) chroma x Ec Ex) as (R & G & B).
  pose proof (Hluma _ R G B) as Elum.
  apply QColor_fromRgbF_grey; try assumption;
    apply qBoundQ_id; try assumption;
    unfold redF, greenF, blueF;
    [rewrite (channelF_zero _ R)|rewrite (channelF_zero _ G)
     |rewrite (channelF_zero _ B)]; rewrite Elum; ring.
Qed.

Lemma color_from_lch_achromatic_witness :
  let col := color_from_lch luma_601 (2 # 3) 0 (1 # 4) 1 in
  c_valid col = true
  /\ c_red col = qRound ((1 # 4) * inject_Z USHRT_MAX)
  /\ c_green col = qRound ((1 # 4) * inject_Z USHRT_MAX)
  /\ c_blue col = qRound ((1 # 4) * inject_Z USHRT_MAX).
Proof.
  apply (color_from_lch_achromatic luma_601 (2 # 3) 0 (1 # 4) 1);
    try solve [reflexivity | split; discriminate].
  intros c R G B. unfold luma_601, redF, greenF, blueF.
  rewrite R, G, B. reflexivity.
Defined.

Lemma Qlt_bool_false (a b : Q) : (b <= a)%Q -> Qlt_bool a b = false.
Proof.
  intros H. unfold Qlt_bool. apply Qle_bool_iff in H. now rewrite H.
Qed.

(** X22: the hue is not wrapped: for a hue of 1 or more no sextant test
    succeeds, the colour before the offset stays the default colour, and
    both conversions give a colour whose red, green and blue channels are
    equal. *)
Theorem hue_from_one_is_grey
  (color_lumaF : QColor -> Q) (hue c l alpha : Q) :
  (1 <= hue)%Q ->
  sextant_color (hue * 6) c
    (c * (1 - Qabs (fmod2 (hue * 6) - 1))) = QColor_invalid
  /\ (let col := color_from_hsl hue c l alpha in
      c_red col = c_green col /\ c_green col = c_blue col)
  /\ (let col := color_from_lch color_lumaF hue c l alpha in
      c_red col = c_green col /\ c_green col = c_blue col).
Proof.
  intros Hh.
  assert (forall chroma x, sextant_color (hue * 6) chroma x = QColor_invalid)
    as Hs.
  { intros chroma x. unfold sextant_color.
    rewrite !Qlt_bool_false by lra.
    now rewrite andb_false_r. }
  split; [apply Hs|].
  unfold color_from_hsl, color_from_lch. cbv zeta. rewrite !Hs.
  split; unfold QColor_fromRgbF;
    match goal with
    | |- context [if ?c then _ else _] => destruct c
    end; simpl; split; reflexivity.
Qed.

Lemma hue_from_one_is_grey_witness :
  sextant_color (1 * 6) 1 (1 * (1 - Qabs (fmod2 (1 * 6) - 1)))
  = QColor_invalid
  /\ (let col := color_from_hsl 1 1 (1 # 2) 1 in
      c_red col = c_green col /\ c_green col = c_blue col)
  /\ (let col := color_from_lch luma_601 1 1 (1 # 2) 1 in
      c_red col = c_green col /\ c_green col = c_blue col).
Proof.
  apply (hue_from_one_is_grey luma_601 1 1 (1 # 2) 1). discriminate.
Defined.

Lemma fmod2_bounds (a : Q) : (0 <= a)%Q -> (0 <= fmod2 a)%Q /\ (fmod2 a < 2)%Q.
Proof.
  intros Ha. unfold fmod2, to_int.
  assert (0 <= a / 2)%Q as H2.
  { apply Qle_shift_div_l; [reflexivity|]. now rewrite Qmult_0_l. }
  apply Qle_bool_iff in H2. rewrite H2.
  pose proof (Qfloor_le (a / 2)) as Fl. pose proof (Qlt_floor (a / 2)) as Fu.
  rewrite inject_Z_plus in Fu. change (inject_Z 1) with 1%Q in Fu.
  set (n := inject_Z (Qfloor (a / 2))) in *. clearbody n.
  unfold Qdiv in Fl, Fu. change (/ 2)%Q with (1 # 2)%Q in Fl, Fu.
  split; lra.
Qed.

Lemma qRound_mono (a b : Q) : (a <= b)%Q -> qRound a <= qRound b.
Proof. intros H. unfold qRound. apply Qfloor_resp_le. lra. Qed.

Lemma QColor_fromRgbF_opaque (r g b : Q) :
  (0 <= r <= 1)%Q -> (0 <= g <= 1)%Q -> (0 <= b <= 1)%Q ->
  QColor_fromRgbF r g b 1 =
  mkQColor true (qRound (r * inject_Z USHRT_MAX))
    (qRound (g * inject_Z USHRT_MAX)) (qRound (b * inject_Z USHRT_MAX))
    USHRT_MAX.
Proof.
  intros Hr Hg Hb. unfold QColor_fromRgbF.
  apply in_unit_spec in Hr, Hg, Hb. rewrite Hr, Hg, Hb. reflexivity.
Qed.

(** X23: for a hue in [0, 1) and a chroma in [0, 1] the colour before the
    offset is always accepted as a colour: the intermediate value x lies
    in [0, chroma], one of red, green and blue stores the rounded chroma,
    which is the largest of the three, and one stores zero. *)
Theorem sextant_color_channels (hue chroma : Q) :
  (0 <= hue)%Q -> (hue < 1)%Q -> (0 <= chroma <= 1)%Q ->
  let x := (chroma * (1 - Qabs (fmod2 (hue * 6) - 1)))%Q in
  let col := sextant_color (hue * 6) chroma x in
  (0 <= x <= chroma)%Q
  /\ c_valid col = true
  /\ Z.max (c_red col) (Z.max (c_green col) (c_blue col))
     = qRound (chroma * inject_Z USHRT_MAX)
  /\ Z.min (c_red col) (Z.min (c_green col) (c_blue col)) = 0.
Proof.
  intros Hh0 Hh1 Hc x col.
  assert (0 <= hue * 6)%Q as H6 by lra.
  destruct (fmod2_bounds (hue * 6) H6) as (F0 & F2).
  set (f := fmod2 (hue * 6)) in *.
  assert (0 <= 1 - Qabs (f - 1) <= 1)%Q as Ht.
  { pose proof (Qabs_nonneg (f - 1)) as Hn.
    assert (Qabs (f - 1) <= 1)%Q as Hu.
    { apply Qabs_Qle_condition. clearbody f. split; lra. }
    generalize dependent (Qabs (f - 1)). intros t Hn Hu. lra. }
  assert (0 <= x <= chroma)%Q as Hx.
  { unfold x. generalize dependent (1 - Qabs (f - 1))%Q. intros t Ht _.
    split.
    - apply Qmult_le_0_compat; tauto.
    - setoid_replace (chroma * t)%Q with (t * chroma)%Q by ring.
      setoid_replace chroma with (1 * chroma)%Q at 2 by ring.
      apply Qmult_le_compat_r; tauto. }
  split; [exact Hx|].
  assert (0 <= x <= 1)%Q as Hx1 by (clearbody x; lra).
  assert (0 <= 0 <= 1)%Q as H01 by (split; discriminate).
  assert (0 <= qRound (x * inject_Z USHRT_MAX)
          <= qRound (chroma * inject_Z USHRT_MAX)) as Hq.
  { split; [apply qRound_channel; exact Hx1|].
    apply qRound_mono. apply Qmult_le_compat_r; [tauto|discriminate]. }
  assert (qRound (0 * inject_Z USHRT_MAX) = 0) as Hq0 by reflexivity.
  unfold col, sextant_color.
  assert (Qlt_bool (hue * 6) 6 = true) as L6 by (apply Qlt_bool_true; lra).
  repeat match goal with
         | |- context [if ?c then _ else _] =>
           let E := fresh "E" in destruct c eqn:E
         end; try congruence;
    rewrite QColor_fromRgbF_opaque by assumption; simpl;
    rewrite ?Hq0; (split; [reflexivity|]); split; lia.
Qed.

Lemma sextant_color_channels_witness :
  let x := ((3 # 4) * (1 - Qabs (fmod2 ((5 # 12) * 6) - 1)))%Q in
  let col := sextant_color ((5 # 12) * 6) (3 # 4) x in
  (0 <= x <= 3 # 4)%Q
  /\ c_valid col = true
  /\ Z.max (c_red col) (Z.max (c_green col) (c_blue col))
     = qRound ((3 # 4) * inject_Z USHRT_MAX)
  /\ Z.min (c_red col) (Z.min (c_green col) (c_blue col)) = 0.
Proof.
  apply (sextant_color_channels (5 # 12) (3 # 4));
    solve [discriminate | reflexivity | split; discriminate].
Defined.

(** * The alpha pattern *)

(** X24: the alpha pattern is a 32 by 32 checkerboard of 16 by 16 squares:
    every pixel of the tile is written, light gray where the squares of its
    column and its row have the same parity and dark gray elsewhere, and
    nothing is written outside the tile. *)
Theorem alpha_pixmap_checkerboard (x y : Z) :
  im_width alpha_pixmap = 32 /\ im_height alpha_pixmap = 32
  /\ (0 <= x < 32 -> 0 <= y < 32 ->
      im_pixel alpha_pixmap x y =
      Some (if Z.even (x / 16 + y / 16) then lightGray else darkGray))
  /\ (~ (0 <= x < 32 /\ 0 <= y < 32) -> im_pixel alpha_pixmap x y = None).
Proof.
  split; [reflexivity|]. split; [reflexivity|].
  unfold alpha_pixmap, fillRect, QImage_new. simpl.
  split.
  - intros Hx Hy.
    assert (x / 16 = 0 /\ x < 16 \/ x / 16 = 1 /\ 16 <= x) as Dx.
    { destruct (Z.lt_ge_cases x 16); [left|right]; split; try lia.
      - apply Z.div_small; lia.
      - symmetry. apply (Z.div_unique x 16 1 (x - 16)); lia. }
    assert (y / 16 = 0 /\ y < 16 \/ y / 16 = 1 /\ 16 <= y) as Dy.
    { destruct (Z.lt_ge_cases y 16); [left|right]; split; try lia.
      - apply Z.div_small; lia.
      - symmetry. apply (Z.div_unique y 16 1 (y - 16)); lia. }
    destruct Dx as [(Ex & Bx)|(Ex & Bx)], Dy as [(Ey & By)|(Ey & By)];
      rewrite Ex, Ey; simpl Z.even; cbv iota;
      repeat match goal with
             | |- context [?a <=? ?b] => destruct (Z.leb_spec a b); try lia
             | |- context [?a <? ?b] => destruct (Z.ltb_spec a b); try lia
             end; reflexivity.
  - intros Hout.
    repeat match goal with
           | |- context [?a <=? ?b] => destruct (Z.leb_spec a b); try lia
           | |- context [?a <? ?b] => destruct (Z.ltb_spec a b); try lia
           end; simpl; try reflexivity; exfalso; apply Hout; lia.
Qed.

Lemma alpha_pixmap_checkerboard_witness :
  im_pixel alpha_pixmap 20 7 = Some darkGray
  /\ im_pixel alpha_pixmap 32 7 = None.
Proof.
  split.
  - apply (proj1 (proj2 (proj2 (alpha_pixmap_checkerboard 20 7))));
      split; solve [discriminate | reflexivity].
  - apply (proj2 (proj2 (proj2 (alpha_pixmap_checkerboard 32 7)))).
    intros [[_ H] _]. revert H. vm_compute. discriminate.
Defined.

(** * Further properties of the controller *)

(** X25: Backspace with a selection, on a palette of at least two entries
    that may be modified and with a defined layout, removes the selected
    entry and selects the entry before it, or the first entry when the
    first was removed. *)
Theorem keyPressEvent_Backspace_selects_previous
  (w : Swatch) (rc : QSize) (ctrl : bool) :
  rowcols w = Some rc -> 0 <= selected w < count w -> 2 <= count w ->
  readonly w = false ->
  exists w',
    exec (keyPressEvent Key_Backspace ctrl) w = Some w'
    /\ palette w' = ColorPalette.eraseColor (palette w) (selected w)
    /\ count w' = count w - 1
    /\ selected w' = Z.max (selected w - 1) 0.
Proof.
  intros Hrc Hs Hn Hro. key_branch Hrc. rewrite Hro.
  replace (selected w =? -1) with false by (symmetry; apply Z.eqb_neq; lia).
  change (negb false && negb false) with true. cbv iota.
  destruct (palette_eraseColor_run w (selected w) Hs)
    as (w1 & R & P1 & _ & _ & _).
  unfold bind at 1. rewrite R. unfold bind at 1, get at 1.
  assert (count w1 = count w - 1) as Hc1.
  { unfold count. rewrite P1. now apply count_eraseColor. }
  fold (count w1). rewrite Hc1.
  replace (count w - 1 =? 0) with false by (symmetry; apply Z.eqb_neq; lia).
  destruct (setSelected_in_range w1 (Z.max (selected w - 1) 0)
              ltac:(lia)) as (w' & R' & S' & P').
  exists w'. split; [exact R'|]. split; [congruence|].
  split; [unfold count; rewrite P'; exact Hc1|exact S'].
Qed.

Lemma keyPressEvent_Backspace_selects_previous_witness :
  exists w',
    exec (keyPressEvent Key_Backspace false) three_swatch = Some w'
    /\ palette w' = ColorPalette.eraseColor (palette three_swatch) 1
    /\ count w' = 3 - 1
    /\ selected w' = Z.max (1 - 1) 0.
Proof.
  apply (keyPressEvent_Backspace_selects_previous three_swatch
           (mkQSize 3 1) false eq_refl);
    solve [reflexivity | vm_compute; discriminate
          | vm_compute; split; [discriminate|reflexivity]].
Defined.

(** X26: a layout is never valid and empty at once: when the layout
    computation returns a size without a negative component, the size has
    at least one column and one row.  The guards on an invalid layout and
    on an empty layout therefore let the same layouts through. *)
Theorem rowcols_valid_not_empty (w : Swatch) (rc : QSize) :
  rowcols w = Some rc -> QSize_isValid rc = true ->
  QSize_isEmpty rc = false.
Proof.
  unfold rowcols, QSize_isValid, QSize_isEmpty. intros H V.
  apply andb_true_iff in V. destruct V as [V1 V2].
  apply Z.leb_le in V1, V2.
  pose proof (Nat2Z.is_nonneg (length (ColorPalette.colors (palette w))))
    as Hn.
  fold (ColorPalette.count (palette w)) in Hn. fold (count w) in Hn.
  assert (forall a b q, b <> 0 ->
            fdiv (inject_Z a) (inject_Z b) = Some q ->
            Qceiling q = - ((- a) / b) \/ b < 0) as Hq.
  { intros a b q Hb F. destruct (Z.lt_ge_cases b 0); [now right|left].
    rewrite fdiv_pos in F by lia. inversion F; subst q.
    apply Qceiling_div. lia. }
  assert (forall a b q, fdiv (inject_Z a) (inject_Z b) = Some q -> b <> 0)
    as Hnz.
  { intros a b q F E. subst b. discriminate. }
  apply orb_false_iff.
  destruct (count w =? 0) eqn:E0.
  { inversion H; subst rc. simpl in *. lia. }
  apply Z.eqb_neq in E0.
  destruct (negb (forced_rows w =? 0)).
  - destruct (fdiv _ _) eqn:F in H; [|discriminate].
    inversion H; subst rc. simpl in *.
    pose proof (Hnz _ _ _ F) as Hb.
    destruct (Hq _ _ _ Hb F) as [E|?]; [|lia].
    pose proof (ceil_div_bounds (count w) (forced_rows w) ltac:(lia)).
    rewrite E in *. split; apply Z.ltb_ge; nia.
  - match type of H with
    | match ?c with _ => _ end = _ => destruct c as [columns|]; [|discriminate]
    end.
    destruct (fdiv _ _) eqn:F in H; [|discriminate].
    inversion H; subst rc. simpl in *.
    pose proof (Hnz _ _ _ F) as Hb.
    destruct (Hq _ _ _ Hb F) as [E|?]; [|lia].
    pose proof (ceil_div_bounds (count w) columns ltac:(lia)).
    rewrite E in *. split; apply Z.ltb_ge; nia.
Qed.

Lemma rowcols_valid_not_empty_witness :
  QSize_isEmpty (mkQSize 3 4) = false.
Proof.
  apply (rowcols_valid_not_empty grid_3x4 (mkQSize 3 4)); reflexivity.
Defined.

(** Where the hit test returns, every cell rectangle is defined. *)
Lemma indexRect_defined (w : Swatch) (pt : QPoint) (i j : Z) :
  indexAt w pt = Some i -> exists r, indexRect w j = Some r.
Proof.
  unfold indexAt, indexRect. intros H.
  destruct (rowcols w) as [rc|] eqn:Hrc; [|discriminate].
  destruct ((j =? -1) || negb (QSize_isValid rc)) eqn:G.
  { eexists; reflexivity. }
  apply orb_false_iff in G. destruct G as [_ G].
  apply negb_false_iff in G.
  pose proof (rowcols_valid_not_empty w rc Hrc G) as Hne.
  destruct (rowcols_covers w rc Hrc Hne) as (HC & HR & _).
  rewrite actualColorSize_defined by lia.
  unfold indexRect3.
  destruct (j =? -1); [eexists; reflexivity|].
  replace (s_width rc =? 0) with false by (symmetry; apply Z.eqb_neq; lia).
  eexists; reflexivity.
Qed.

(** X27: drop resolution returns whenever the hit test at the pointer
    does, and a pointer that hits no entry resolves to an insertion at the
    end: the target index is count and nothing is overwritten. *)
Theorem dropEvent_appends (w : Swatch) (e : QDropEvent) (i : Z) :
  indexAt w (ev_pos e) = Some i ->
  exists w',
    exec (dropEvent e) w = Some w'
    /\ (i = -1 -> drop_index w' = count w /\ drop_overwrite w' = false).
Proof.
  intros Hat.
  destruct (indexRect_defined w (ev_pos e) i
              (if i =? -1 then count w else i) Hat) as (r & Hr).
  assert (exists a w', dropEvent e w = Some (a, w')) as (a & w' & H).
  { unfold dropEvent. unfold bind at 1, get at 1.
    unfold bind at 1, lift at 1. rewrite Hat.
    unfold bind at 1, lift at 1. rewrite Hr.
    unfold may_overwrite. run.
    repeat match goal with
           | |- context [if ?c then _ else _] => destruct c; simpl
           end; eexists; eexists; reflexivity. }
  exists w'. unfold exec. rewrite H. split; [reflexivity|].
  intros Ei. subst i.
  destruct (dropEvent_cases w e (a, w') H) as (i' & Hat' & Hc).
  rewrite Hat in Hat'. inversion Hat'; subst i'. simpl in Hc.
  destruct Hc as [(D & O & L)|[(D & O)|(D & O & L & _)]]; try lia.
  now split.
Qed.

Lemma dropEvent_appends_witness :
  exists w',
    exec (dropEvent (drag_at 40 60 false false)) grid_3x4 = Some w'
    /\ (-1 = -1 -> drop_index w' = count grid_3x4
                   /\ drop_overwrite w' = false).
Proof.
  apply (dropEvent_appends grid_3x4 (drag_at 40 60 false false) (-1)).
  reflexivity.
Defined.
